(** * Windows file-system notifier ([win_fsnotifier.cpp])

    A shallow embedding of the Windows watcher of native-platform: the
    [WatchPoint] and [Server] classes of [src/main/cpp/win_fsnotifier.cpp]
    and the two JNI entry points, followed by the properties of the
    specification that concern them.

    Conventions.
    - C++ objects live in a heap indexed by addresses ([ptr]); a method
      takes its [this] pointer as first argument.
    - Every call that leaves the process (Win32, JNI, the logger) appends
      an [Effect] to the trace of the state, together with its result.
      Results of Win32 calls are chosen by an [OS] oracle which sees the
      whole history, so a theorem quantified over [OS] holds whatever the
      operating system answers.
    - The run-loop thread only ever executes code inside an alertable
      [SleepEx]: its progress is the function [SleepEx_return], which runs
      the queued APCs and re-evaluates the loop condition of [Server::run].
    - A computation either returns, blocks for ever (a [join] or a
      condition-variable wait that nothing ends) or has undefined
      behaviour (a dangling pointer is dereferenced).
    - The caller's thread and the run-loop thread take turns: the
      run-loop thread proceeds when the caller waits for it and when the
      operating system delivers a completion.  The one place where the
      two synchronise through a mutex and a condition variable, the
      registration of a path, is also modelled statement by statement
      with every interleaving ([Handshake]). *)

From Stdlib Require Import ZArith List String Ascii Lia.
From stdpp Require Import base option list gmap fin_sets.

Open Scope Z_scope.

(** ** Strings and paths *)

(** [wchar_t] is a 16-bit code unit; [std::wstring] a sequence of them. *)
Definition wchar_t := Z.
Definition wstring := list wchar_t.

(** The wide-string literal [L"..."] for ASCII text. *)
Fixpoint L (s : string) : wstring :=
  match s with
  | EmptyString => []
  | String c s' => Z.of_N (N_of_ascii c) :: L s'
  end.

Definition backslash : wchar_t := 92.
Definition colon : wchar_t := 58.

Definition is_letter (c : wchar_t) : bool :=
  ((65 <=? c) && (c <=? 90)) || ((97 <=? c) && (c <=? 122)).

(** What the callback of the test-suite checks on every path it receives
    ([new File(path).absolute] in [AbstractFileEventsTest.TestCallback]):
    on Windows a path is absolute when it starts with a drive specifier
    followed by a separator, or with a UNC prefix. *)
Definition isAbsolute (p : wstring) : bool :=
  match p with
  | c0 :: c1 :: c2 :: _ =>
      (is_letter c0 && (c1 =? colon) && (c2 =? backslash))
      || ((c0 =? backslash) && (c1 =? backslash))
  | c0 :: c1 :: _ => (c0 =? backslash) && (c1 =? backslash)
  | _ => false
  end.

(** ** Constants of the platform headers

    The values below are those of the Windows SDK ([winnt.h], [winerror.h])
    and of [jni.h]; the [FILE_EVENT_*] constants come from the generated JNI
    header and only their being distinct matters. *)

Definition DWORD := Z.
Definition HANDLE := Z.

Definition FILE_ACTION_ADDED : DWORD := 1.
Definition FILE_ACTION_REMOVED : DWORD := 2.
Definition FILE_ACTION_MODIFIED : DWORD := 3.
Definition FILE_ACTION_RENAMED_OLD_NAME : DWORD := 4.
Definition FILE_ACTION_RENAMED_NEW_NAME : DWORD := 5.
Definition ERROR_OPERATION_ABORTED : DWORD := 995.
Definition INVALID_HANDLE_VALUE : HANDLE := -1.
Definition JNI_OK : Z := 0.
Definition sizeof_wchar_t : Z := 2.

Inductive FileEvent :=
| FILE_EVENT_CREATED
| FILE_EVENT_REMOVED
| FILE_EVENT_MODIFIED
| FILE_EVENT_INVALIDATE
| FILE_EVENT_UNKNOWN.

Inductive WatchStatus :=
| WATCH_UNINITIALIZED
| WATCH_LISTENING
| WATCH_NOT_LISTENING
| WATCH_FAILED_TO_LISTEN
| WATCH_FINISHED.

#[global] Instance FileEvent_eq_dec : EqDecision FileEvent.
Proof. solve_decision. Defined.

#[global] Instance WatchStatus_eq_dec : EqDecision WatchStatus.
Proof. solve_decision. Defined.

(** ** Data *)

(** One record of the buffer filled by [ReadDirectoryChangesW].
    [FileName] is the memory that starts at the field of that name: the
    name itself, [FileNameLength] bytes long, and whatever follows it. *)
Record FILE_NOTIFY_INFORMATION := {
  NextEntryOffset : DWORD;
  Action : DWORD;
  FileNameLength : DWORD;
  FileName : list wchar_t
}.

(** The buffer of a watch point as the operating system left it: the
    records, each at its offset in bytes from the start of the buffer.
    Reading a record where there is none is undefined. *)
Abbreviation Buffer := (gmap Z FILE_NOTIFY_INFORMATION).

Definition ptr := positive.

(** [WatchPoint]: the members the methods read or write.  [listenerStarted]
    records whether the condition variable of that name has been notified;
    the buffer is passed to [handleEvent] with the completion. *)
Record WatchPoint := {
  path : wstring;
  directoryHandle : HANDLE;
  status : WatchStatus;
  listenerStarted : bool
}.

Definition set_status (st : WatchStatus) (w : WatchPoint) : WatchPoint :=
  {| path := path w; directoryHandle := directoryHandle w;
     status := st; listenerStarted := listenerStarted w |}.

Definition notify_all (w : WatchPoint) : WatchPoint :=
  {| path := path w; directoryHandle := directoryHandle w;
     status := status w; listenerStarted := true |}.

(** The routines that [QueueUserAPC] and the completion of an overlapped
    read queue on the run-loop thread, with their arguments. *)
Inductive APC :=
| startWatchCallback (arg : ptr)
| requestTerminationCallback
| handleEventCallback (errorCode bytesTransferred : DWORD) (hEvent : ptr)
    (buffer : Buffer).

Inductive LogLevel := FINE | INFO | WARNING | SEVERE.

Inductive Effect :=
| E_CreateFileW (name : wstring) (ret : HANDLE)
| E_ReadDirectoryChangesW (h : HANDLE) (ret : bool)
| E_CancelIo (h : HANDLE) (ret : bool)
| E_CloseHandle (h : HANDLE) (ret : bool)
| E_QueueUserAPC (routine : APC) (ret : bool)
| E_pathChanged (type : FileEvent) (changedPath : wstring)
| E_log (level : LogLevel) (format : string)
| E_new_WatchPoint (p : ptr)
| E_delete_WatchPoint (p : ptr) (w : WatchPoint)
| E_NewGlobalRef
| E_DeleteGlobalRef
| E_thread_start
| E_SetThreadPriority
| E_attach_jni (ret : bool)
| E_detach_jni.

Definition Trace := list Effect.

Inductive ThreadState :=
| NotStarted
| InSleepEx
| Exited.

#[global] Instance ThreadState_eq_dec : EqDecision ThreadState.
Proof. solve_decision. Defined.

(** The [Server] object ([terminate], [watchPoints]), the heap of its
    [WatchPoint]s, its thread with the APCs queued on it, and the trace. *)
Record Server := {
  terminate : bool;
  watchPoints : list ptr;
  objects : gmap ptr WatchPoint;
  watcherThread : ThreadState;
  apcQueue : list APC;
  trace : Trace
}.

(** Answers of the operating system, given the history so far. *)
Record OS := {
  os_CreateFileW : Trace -> wstring -> HANDLE;
  os_ReadDirectoryChangesW : Trace -> HANDLE -> bool;
  os_CancelIo : Trace -> HANDLE -> bool;
  os_CloseHandle : Trace -> HANDLE -> bool;
  os_attach_jni : Trace -> bool
}.

(** What the run-loop thread and the operating system do while a caller
    is inside [Server::startWatching].  A burst is a list of completions
    that the operating system queues on the thread before its alertable
    wait ends once more; the thread then calls whatever is queued.

    - [before_call]: the bursts before the caller opens the directory;
    - [spurious_wakeup]: the caller's [wait], which has no predicate, ends
      before the run-loop thread has taken the APC of the registration;
    - [before_status]: the bursts between the end of the [wait] and the
      caller's read of [status] (the read comes after [lock.unlock()]);
    - [before_update]: the bursts between that read and the caller's
      [push_back] or [delete]. *)
Record Interference := {
  before_call : list (list APC);
  spurious_wakeup : bool;
  before_status : list (list APC);
  before_update : list (list APC)
}.

(** Nothing interferes: the wait ends by the notification and the
    run-loop thread handles no completion during the call. *)
Definition undisturbed : Interference :=
  {| before_call := []; spurious_wakeup := false;
     before_status := []; before_update := [] |}.

Definition no_interference (i : Interference) : Prop :=
  before_call i = [] /\ spurious_wakeup i = false
  /\ before_status i = [] /\ before_update i = [].

(** ** The monad of the embedding *)

Inductive Outcome (S A : Type) :=
| Ret (a : A) (s : S)
| Blocked (s : S)
| Undefined.
Arguments Ret {S A} a s.
Arguments Blocked {S A} s.
Arguments Undefined {S A}.

Definition M (A : Type) : Type := Server -> Outcome Server A.

Definition ret {A} (a : A) : M A := fun s => Ret a s.

Definition bind {A B} (m : M A) (k : A -> M B) : M B :=
  fun s =>
    match m s with
    | Ret a s' => k a s'
    | Blocked s' => Blocked s'
    | Undefined => Undefined
    end.

Declare Scope m_scope.
Delimit Scope m_scope with M.
Notation "x <- m ;; k" := (bind m (fun x => k))
  (at level 100, m at next level, k at level 200, right associativity) : m_scope.
Notation "m ;; k" := (bind m (fun _ => k))
  (at level 100, k at level 200, right associativity) : m_scope.
Open Scope m_scope.

Definition get : M Server := fun s => Ret s s.
Definition block {A} : M A := fun s => Blocked s.
Definition undefined {A} : M A := fun _ => Undefined.

(** Updates of the fields of the state. *)
Definition upd_terminate (b : bool) (s : Server) : Server :=
  {| terminate := b; watchPoints := watchPoints s;
     objects := objects s; watcherThread := watcherThread s;
     apcQueue := apcQueue s; trace := trace s |}.

Definition upd_watchPoints (l : list ptr) (s : Server) : Server :=
  {| terminate := terminate s; watchPoints := l;
     objects := objects s; watcherThread := watcherThread s;
     apcQueue := apcQueue s; trace := trace s |}.

Definition upd_objects (h : gmap ptr WatchPoint) (s : Server) : Server :=
  {| terminate := terminate s; watchPoints := watchPoints s;
     objects := h; watcherThread := watcherThread s;
     apcQueue := apcQueue s; trace := trace s |}.

Definition upd_watcherThread (t : ThreadState) (s : Server) : Server :=
  {| terminate := terminate s; watchPoints := watchPoints s;
     objects := objects s; watcherThread := t;
     apcQueue := apcQueue s; trace := trace s |}.

Definition upd_apcQueue (q : list APC) (s : Server) : Server :=
  {| terminate := terminate s; watchPoints := watchPoints s;
     objects := objects s; watcherThread := watcherThread s;
     apcQueue := q; trace := trace s |}.

Definition add_trace (t : Trace) (s : Server) : Server :=
  {| terminate := terminate s; watchPoints := watchPoints s;
     objects := objects s; watcherThread := watcherThread s;
     apcQueue := apcQueue s; trace := trace s ++ t |}.

Definition emit (e : Effect) : M unit :=
  fun s => Ret tt (add_trace [e] s).

Definition set_terminate (b : bool) : M unit :=
  fun s => Ret tt (upd_terminate b s).

Definition set_watchPoints (l : list ptr) : M unit :=
  fun s => Ret tt (upd_watchPoints l s).

Definition set_objects (h : gmap ptr WatchPoint) : M unit :=
  fun s => Ret tt (upd_objects h s).

Definition set_watcherThread (t : ThreadState) : M unit :=
  fun s => Ret tt (upd_watcherThread t s).

Definition set_apcQueue (q : list APC) : M unit :=
  fun s => Ret tt (upd_apcQueue q s).

(** Dereferencing a [WatchPoint*]: undefined when the object is gone. *)
Definition deref (p : ptr) : M WatchPoint :=
  fun s => match objects s !! p with
           | Some w => Ret w s
           | None => Undefined
           end.

Definition store (p : ptr) (w : WatchPoint) : M unit :=
  s <- get ;; set_objects (<[p := w]> (objects s)).

Definition modify (p : ptr) (f : WatchPoint -> WatchPoint) : M unit :=
  w <- deref p ;; store p (f w).

Definition when (b : bool) (m : M unit) : M unit :=
  if b then m else ret tt.

Fixpoint for_each {A} (l : list A) (body : A -> M unit) : M unit :=
  match l with
  | [] => ret tt
  | x :: l' => body x ;; for_each l' body
  end.

(** [std::wstring(s, pos, count)] applied to a [wchar_t*]: the pointer is
    first converted to a string, which reads up to the first NUL, and the
    sub-string is taken from the result. *)
Fixpoint c_str (mem : list wchar_t) : wstring :=
  match mem with
  | [] => []
  | c :: mem' => if c =? 0 then [] else c :: c_str mem'
  end.

Definition substr (s : wstring) (pos count : Z) : wstring :=
  take (Z.to_nat count) (drop (Z.to_nat pos) s).

(** The first lines of [WatchPoint::handlePathChanged]: the local
    [changedPath], built from the record and the [path] of the watch
    point. *)
Definition changedPath_of (path : wstring) (info : FILE_NOTIFY_INFORMATION)
    : wstring :=
  let changedPath :=
    substr (c_str (FileName info)) 0 (FileNameLength info / sizeof_wchar_t) in
  match changedPath with
  | [] => changedPath
  | _ => path ++ backslash :: changedPath
  end.

(** ** The code *)

Section Code.

Variable os : OS.

(** *** Calls into the operating system and the JVM *)

Definition log (level : LogLevel) (format : string) : M unit :=
  emit (E_log level format).

Definition CreateFileW (name : wstring) : M HANDLE :=
  s <- get ;;
  let h := os_CreateFileW os (trace s) name in
  emit (E_CreateFileW name h) ;; ret h.

Definition ReadDirectoryChangesW (h : HANDLE) : M bool :=
  s <- get ;;
  let r := os_ReadDirectoryChangesW os (trace s) h in
  emit (E_ReadDirectoryChangesW h r) ;; ret r.

Definition CancelIo (h : HANDLE) : M bool :=
  s <- get ;;
  let r := os_CancelIo os (trace s) h in
  emit (E_CancelIo h r) ;; ret r.

Definition CloseHandle (h : HANDLE) : M bool :=
  s <- get ;;
  let r := os_CloseHandle os (trace s) h in
  emit (E_CloseHandle h r) ;; ret r.

(** [QueueUserAPC] succeeds on a live thread and appends the routine to
    its queue; it fails on a thread that has not started or has exited. *)
Definition QueueUserAPC (routine : APC) : M bool :=
  s <- get ;;
  match watcherThread s with
  | InSleepEx =>
      set_apcQueue (apcQueue s ++ [routine]) ;;
      emit (E_QueueUserAPC routine true) ;; ret true
  | _ => emit (E_QueueUserAPC routine false) ;; ret false
  end.

(** [new WatchPoint(server, path, directoryHandle)]: the allocator returns
    an address that no live object occupies. *)
Definition new_WatchPoint (name : wstring) (h : HANDLE) : M ptr :=
  s <- get ;;
  let p := fresh (dom (objects s)) in
  store p {| path := name; directoryHandle := h;
             status := WATCH_UNINITIALIZED; listenerStarted := false |} ;;
  emit (E_new_WatchPoint p) ;;
  ret p.

(** [delete watchPoint]: the destructor runs on the object as it is. *)
Definition delete_WatchPoint (p : ptr) : M unit :=
  w <- deref p ;;
  emit (E_delete_WatchPoint p w) ;;
  s <- get ;;
  set_objects (delete p (objects s)).

(** *** Server: the part the WatchPoint calls *)

(** [Server::reportEvent]: the call of [pathChanged] on the callback. *)
Definition Server_reportEvent (type : FileEvent) (changedPath : wstring) : M unit :=
  emit (E_pathChanged type changedPath).

(** [Server::reportFinished]. *)
Definition Server_reportFinished (watchPoint : ptr) : M unit :=
  s <- get ;;
  set_watchPoints (filter (fun q => q <> watchPoint) (watchPoints s)) ;;
  delete_WatchPoint watchPoint.

(** *** WatchPoint *)

(** [WatchPoint::close]. *)
Definition WatchPoint_close (this : ptr) : M unit :=
  w <- deref this ;;
  r <- CancelIo (directoryHandle w) ;;
  when (negb r) (log SEVERE "Couldn't cancel I/O %p for '%ls': %d") ;;
  r <- CloseHandle (directoryHandle w) ;;
  when (negb r) (log SEVERE "Couldn't close handle %p for '%ls': %d").

(** [WatchPoint::listen].  The two threads never run at the same moment
    here, so [listenerMutex] is left out; it is part of [Handshake]
    below, where they do. *)
Definition WatchPoint_listen (this : ptr) : M unit :=
  w <- deref this ;;
  success <- ReadDirectoryChangesW (directoryHandle w) ;;
  (if success : bool then
     modify this (set_status WATCH_LISTENING)
   else
     modify this (set_status WATCH_FAILED_TO_LISTEN) ;;
     log WARNING "Couldn't start watching %p for '%ls', error = %d") ;;
  modify this notify_all.

(** [WatchPoint::handlePathChanged]. *)
Definition WatchPoint_handlePathChanged (this : ptr)
    (info : FILE_NOTIFY_INFORMATION) : M unit :=
  w <- deref this ;;
  let changedPath := changedPath_of (path w) info in
  log FINE "Change detected: 0x%x '%ls'" ;;
  type <-
    (if (Action info =? FILE_ACTION_ADDED)
        || (Action info =? FILE_ACTION_RENAMED_NEW_NAME) then
       ret FILE_EVENT_CREATED
     else if (Action info =? FILE_ACTION_REMOVED)
             || (Action info =? FILE_ACTION_RENAMED_OLD_NAME) then
       ret FILE_EVENT_REMOVED
     else if Action info =? FILE_ACTION_MODIFIED then
       ret FILE_EVENT_MODIFIED
     else
       log WARNING "Unknown event 0x%x for %ls" ;;
       ret FILE_EVENT_UNKNOWN) ;;
  Server_reportEvent type changedPath.

(** The loop of [handleEvent] over the records of the buffer; [current]
    is the offset of the record that the pointer of that name points to.
    Offsets are unsigned, so the pointer only moves forward and the loop
    visits no record twice: [fuel], one more than the number of records,
    is not used up before the loop ends or leaves the records
    ([handle_records_fuel]). *)
Fixpoint handle_records (fuel : nat) (this : ptr) (buffer : Buffer) (current : Z)
    : M unit :=
  match fuel with
  | O => undefined
  | S fuel' =>
      match buffer !! current with
      | None => undefined
      | Some info =>
          WatchPoint_handlePathChanged this info ;;
          if NextEntryOffset info =? 0 then
            ret tt
          else
            handle_records fuel' this buffer (current + NextEntryOffset info)
      end
  end.

(** [WatchPoint::handleEvent]. *)
Definition WatchPoint_handleEvent (this : ptr) (errorCode bytesTransferred : DWORD)
    (buffer : Buffer) : M unit :=
  modify this (set_status WATCH_NOT_LISTENING) ;;
  if errorCode =? ERROR_OPERATION_ABORTED then
    log INFO "Finished watching '%ls'" ;;
    modify this (set_status WATCH_FINISHED) ;;
    Server_reportFinished this
  else
    (if bytesTransferred =? 0 then
       w <- deref this ;;
       Server_reportEvent FILE_EVENT_INVALIDATE (path w)
     else
       handle_records (S (size buffer)) this buffer 0) ;;
    WatchPoint_listen this ;;
    w <- deref this ;;
    when (negb (bool_decide (status w = WATCH_LISTENING)))
      (Server_reportFinished this).

(** *** Server: the run-loop thread *)

(** [Server::requestTermination]. *)
Definition Server_requestTermination : M unit :=
  set_terminate true ;;
  s <- get ;;
  let copyWatchPoints := watchPoints s in
  for_each copyWatchPoints WatchPoint_close.

(** The three callbacks: [startWatchCallback], [requestTerminationCallback]
    and [handleEventCallback]. *)
Definition call (routine : APC) : M unit :=
  match routine with
  | startWatchCallback arg => WatchPoint_listen arg
  | requestTerminationCallback => Server_requestTermination
  | handleEventCallback errorCode bytesTransferred hEvent buffer =>
      WatchPoint_handleEvent hEvent errorCode bytesTransferred buffer
  end.

(** The condition of the loop of [Server::run] and what follows it:
    either the thread enters [SleepEx(INFINITE, true)] again, or it leaves
    the loop and finishes. *)
Definition run_condition (s : Server) : bool :=
  negb (terminate s) || (0 <? Z.of_nat (length (watchPoints s))).

Definition run_loop : M unit :=
  s <- get ;;
  if run_condition s then
    set_watcherThread InSleepEx
  else
    log INFO "Server thread %d finishing" ;;
    emit E_detach_jni ;;
    set_watcherThread Exited.

(** [Server::run] from its start to the first wait. *)
Definition Server_run : M unit :=
  s <- get ;;
  let env := os_attach_jni os (trace s) in
  emit (E_attach_jni env) ;;
  if env then
    log INFO "Server thread %d with handle %p running" ;;
    run_loop
  else
    set_watcherThread Exited.

(** The alertable wait ends: the APCs queued on the thread are called, in
    the order in which they were queued, [SleepEx] returns and the loop
    goes on.  Nothing happens while no APC is queued. *)
Definition SleepEx_return : M unit :=
  s <- get ;;
  match watcherThread s, apcQueue s with
  | InSleepEx, _ :: _ =>
      set_apcQueue [] ;;
      for_each (apcQueue s) call ;;
      run_loop
  | _, _ => ret tt
  end.

(** A completion routine queued by the operating system. *)
Definition deliver (routine : APC) : M unit :=
  s <- get ;;
  match watcherThread s with
  | InSleepEx => set_apcQueue (apcQueue s ++ [routine])
  | _ => ret tt
  end.

(** *** Server: the caller's thread *)

(** [WatchPoint::awaitListeningStarted], undisturbed: the result of
    [QueueUserAPC] is not looked at; the wait on [listenerStarted] lets
    the run-loop thread proceed, and ends only if that thread has notified
    the condition variable; the run-loop thread handles nothing else
    before the caller has read [status].  The call with a spurious
    wake-up or with completions in between is
    [WatchPoint_awaitListeningStarted_during] below. *)
Definition WatchPoint_awaitListeningStarted (this : ptr) : M WatchStatus :=
  _ <- QueueUserAPC (startWatchCallback this) ;;
  SleepEx_return ;;
  w <- deref this ;;
  if listenerStarted w then ret (status w) else block.

(** [Server::startWatching], undisturbed: no completion is handled while
    the call runs.  The call with what may interfere is
    [Server_startWatching_during] below. *)
Definition Server_startWatching (name : wstring) : M unit :=
  directoryHandle <- CreateFileW name ;;
  if directoryHandle =? INVALID_HANDLE_VALUE then
    log SEVERE "Couldn't get file handle for '%ls': %d"
  else
    watchPoint <- new_WatchPoint name directoryHandle ;;
    r <- WatchPoint_awaitListeningStarted watchPoint ;;
    match r with
    | WATCH_LISTENING =>
        s <- get ;;
        set_watchPoints (watchPoints s ++ [watchPoint])
    | _ =>
        log SEVERE "Couldn't start listening to '%ls': %d" ;;
        delete_WatchPoint watchPoint
    end.

(** The run-loop thread on its own, while the caller is between two of
    its statements: for each burst the operating system queues the
    completions of the burst, the alertable wait ends and the thread calls
    what is queued. *)
Definition run_loop_thread (bursts : list (list APC)) : M unit :=
  for_each bursts (fun arrivals => for_each arrivals deliver ;; SleepEx_return).

(** [WatchPoint::awaitListeningStarted] with what may interfere.  The
    [wait] has no predicate: it ends when [listen] has notified
    [listenerStarted], or spuriously; [status] is read after the mutex
    has been released, so the run-loop thread may have handled
    completions, those of this watch point among them, before the read.
    Reading the [status] of a watch point that has been deleted in the
    meantime is undefined. *)
Definition WatchPoint_awaitListeningStarted_during (i : Interference) (this : ptr)
    : M WatchStatus :=
  _ <- QueueUserAPC (startWatchCallback this) ;;
  (if spurious_wakeup i then
     ret tt
   else
     SleepEx_return ;;
     w <- deref this ;;
     if listenerStarted w then ret tt else block) ;;
  run_loop_thread (before_status i) ;;
  w <- deref this ;;
  ret (status w).

(** [Server::startWatching] with what may interfere: the caller updates
    [watchPoints], or deletes the watch point, on its own thread, some
    time after it has read the status.  [Server_startWatching] above is
    the call that nothing interferes with
    ([Server_startWatching_undisturbed]). *)
Definition Server_startWatching_during (i : Interference) (name : wstring) : M unit :=
  run_loop_thread (before_call i) ;;
  directoryHandle <- CreateFileW name ;;
  if directoryHandle =? INVALID_HANDLE_VALUE then
    log SEVERE "Couldn't get file handle for '%ls': %d"
  else
    watchPoint <- new_WatchPoint name directoryHandle ;;
    r <- WatchPoint_awaitListeningStarted_during i watchPoint ;;
    run_loop_thread (before_update i) ;;
    match r with
    | WATCH_LISTENING =>
        s <- get ;;
        set_watchPoints (watchPoints s ++ [watchPoint])
    | _ =>
        log SEVERE "Couldn't start listening to '%ls': %d" ;;
        delete_WatchPoint watchPoint
    end.

(** The loop of the JNI entry point over the paths, each registration
    with its interference; a registration for which [schedule] says
    nothing is undisturbed. *)
Fixpoint startWatching_each (paths : list wstring) (schedule : list Interference)
    : M unit :=
  match paths with
  | [] => ret tt
  | name :: paths' =>
      Server_startWatching_during (hd undisturbed schedule) name ;;
      startWatching_each paths' (tl schedule)
  end.

(** [watcherThread.join()]: the caller waits for the thread to exit, while
    the operating system delivers the completions [arrivals] one after the
    other; when they are used up and the thread still waits, nothing will
    ever end the [join]. *)
Fixpoint join (arrivals : list APC) : M unit :=
  SleepEx_return ;;
  s <- get ;;
  match watcherThread s with
  | Exited => ret tt
  | _ =>
      match arrivals with
      | [] => block
      | a :: rest => deliver a ;; join rest
      end
  end.

(** [Server::close]. *)
Definition Server_close (arrivals : list APC) : M unit :=
  log FINE "Requesting termination of server thread %p" ;;
  r <- QueueUserAPC requestTerminationCallback ;;
  (if r : bool then
     join arrivals
   else
     log SEVERE "Couldn't send termination request to thread %p: %d") ;;
  emit E_DeleteGlobalRef.

(** [Server::Server]: the constructor waits on [watcherThreadStarted],
    which only a thread that attached to the JVM notifies. *)
Definition Server_new : M unit :=
  emit E_NewGlobalRef ;;
  emit E_thread_start ;;
  Server_run ;;
  s <- get ;;
  match watcherThread s with
  | InSleepEx => emit E_SetThreadPriority
  | _ => block
  end.

(** *** JNI calls

    The process holds the servers that [new Server] created and that no
    [delete server] has destroyed yet.  A JNI function returns its
    [jobject] (the address wrapped by [NewDirectByteBuffer], or [NULL])
    together with the failure message that [mark_failed_with_errno] left
    in [result], if any. *)

(** The members of a server before its constructor runs; [terminate]
    starts as [false]. *)
Definition Server_initial : Server :=
  {| terminate := false; watchPoints := []; objects := ∅;
     watcherThread := NotStarted; apcQueue := []; trace := [] |}.

(** [Java_..._WindowsFileEventFunctions_startWatching]; [jvmStatus] is
    what [GetJavaVM] returns and [paths] are the paths of the array, as
    converted by [java_to_wchar_path].  The registrations are
    undisturbed; [Java_startWatching_during] below is the entry point
    with what may interfere. *)
Definition Java_startWatching (jvmStatus : Z) (paths : list wstring)
    (process : gmap ptr Server)
    : Outcome (gmap ptr Server) (option ptr * option string) :=
  if negb (jvmStatus =? JNI_OK) then
    Ret (None, Some "Could not store JVM instance."%string) process
  else
    let watchPointCount := Z.of_nat (length paths) in
    if watchPointCount =? 0 then
      Ret (None, Some "No paths given to watch."%string) process
    else
      let server := fresh (dom process) in
      match (Server_new ;; for_each paths Server_startWatching) Server_initial with
      | Ret _ s => Ret (Some server, None) (<[server := s]> process)
      | Blocked s => Blocked (<[server := s]> process)
      | Undefined => Undefined
      end.

(** The same entry point with what may interfere with its registrations;
    [Java_startWatching] is the call that nothing interferes with
    ([Java_startWatching_undisturbed]). *)
Definition Java_startWatching_during (jvmStatus : Z) (paths : list wstring)
    (schedule : list Interference) (process : gmap ptr Server)
    : Outcome (gmap ptr Server) (option ptr * option string) :=
  if negb (jvmStatus =? JNI_OK) then
    Ret (None, Some "Could not store JVM instance."%string) process
  else
    let watchPointCount := Z.of_nat (length paths) in
    if watchPointCount =? 0 then
      Ret (None, Some "No paths given to watch."%string) process
    else
      let server := fresh (dom process) in
      match (Server_new ;; startWatching_each paths schedule) Server_initial with
      | Ret _ s => Ret (Some server, None) (<[server := s]> process)
      | Blocked s => Blocked (<[server := s]> process)
      | Undefined => Undefined
      end.

(** [Java_..._WindowsFileEventFunctions_stopWatching]; [detailsObj] wraps
    the address of the server. *)
Definition Java_stopWatching (detailsObj : ptr) (arrivals : list APC)
    (process : gmap ptr Server)
    : Outcome (gmap ptr Server) (option string) :=
  match process !! detailsObj with
  | None => Undefined
  | Some s =>
      match Server_close arrivals s with
      | Ret _ s' => Ret None (delete detailsObj process)
      | Blocked s' => Blocked (<[detailsObj := s']> process)
      | Undefined => Undefined
      end
  end.

End Code.

(** ** Reading a trace *)

(** The calls of [pathChanged] of a trace: the events the sink received. *)
Definition reported (t : Trace) : list (FileEvent * wstring) :=
  omap (fun e => match e with
                 | E_pathChanged type changedPath => Some (type, changedPath)
                 | _ => None
                 end) t.

(** The asynchronous reads that a trace issued. *)
Definition reads (t : Trace) : list HANDLE :=
  omap (fun e => match e with
                 | E_ReadDirectoryChangesW h _ => Some h
                 | _ => None
                 end) t.

Inductive HandleCall :=
| Call_CancelIo (h : HANDLE)
| Call_CloseHandle (h : HANDLE).

(** The calls of [CancelIo] and [CloseHandle] of a trace, in order. *)
Definition handle_calls (t : Trace) : list HandleCall :=
  omap (fun e => match e with
                 | E_CancelIo h _ => Some (Call_CancelIo h)
                 | E_CloseHandle h _ => Some (Call_CloseHandle h)
                 | _ => None
                 end) t.

(** What [handlePathChanged] computes from a record, as the specification
    words it: the type of change that an action code stands for ... *)
Definition spec_ChangeType (action : DWORD) : FileEvent :=
  if decide (action = FILE_ACTION_ADDED \/ action = FILE_ACTION_RENAMED_NEW_NAME)
  then FILE_EVENT_CREATED
  else if decide (action = FILE_ACTION_REMOVED \/ action = FILE_ACTION_RENAMED_OLD_NAME)
  then FILE_EVENT_REMOVED
  else if decide (action = FILE_ACTION_MODIFIED)
  then FILE_EVENT_MODIFIED
  else FILE_EVENT_UNKNOWN.

(** ... and the name of the record: its first [FileNameLength] bytes. *)
Definition record_name (info : FILE_NOTIFY_INFORMATION) : wstring :=
  take (Z.to_nat (FileNameLength info / sizeof_wchar_t)) (FileName info).

(** The watched root joined with a name. *)
Definition join_path (root name : wstring) : wstring :=
  root ++ backslash :: name.

(** The records that the chain of [NextEntryOffset] links, from the one
    at [current] to the one whose [NextEntryOffset] is 0; nothing when the
    chain leaves the records of the buffer. *)
Fixpoint records_from (fuel : nat) (buffer : Buffer) (current : Z)
    : option (list FILE_NOTIFY_INFORMATION) :=
  match fuel with
  | O => None
  | S fuel' =>
      match buffer !! current with
      | None => None
      | Some info =>
          if NextEntryOffset info =? 0 then
            Some [info]
          else
            match records_from fuel' buffer (current + NextEntryOffset info) with
            | Some infos => Some (info :: infos)
            | None => None
            end
      end
  end.

Definition records (buffer : Buffer) : option (list FILE_NOTIFY_INFORMATION) :=
  records_from (S (size buffer)) buffer 0.

(** The records of a buffer at or after an offset. *)
Definition from_offset (buffer : Buffer) (current : Z) : Buffer :=
  filter (fun entry => current <= entry.1) buffer.

(** The offsets of a buffer are those of a [DWORD]: none is negative. *)
Definition unsigned_offsets (buffer : Buffer) : Prop :=
  forall offset info, buffer !! offset = Some info -> 0 <= NextEntryOffset info.

(** The effects of [handlePathChanged] on one record. *)
Definition record_effects (w : WatchPoint) (info : FILE_NOTIFY_INFORMATION)
    : Trace :=
  E_log FINE "Change detected: 0x%x '%ls'" ::
  match spec_ChangeType (Action info) with
  | FILE_EVENT_UNKNOWN => [E_log WARNING "Unknown event 0x%x for %ls"]
  | _ => []
  end ++
  [E_pathChanged (spec_ChangeType (Action info)) (changedPath_of (path w) info)].

(** The two calls that [WatchPoint::close] makes on the handle of a
    watch point. *)
Definition closing_calls (w : WatchPoint) : list HandleCall :=
  [Call_CancelIo (directoryHandle w); Call_CloseHandle (directoryHandle w)].

(** Every pointer of the list is the address of a live watch point. *)
Definition live_at (s : Server) (ps : list ptr) (ws : list WatchPoint) : Prop :=
  Forall2 (fun p w => objects s !! p = Some w) ps ws.

(** ** What the routines of the run-loop thread leave untouched

    The code that runs inside [SleepEx] never blocks, does not touch the
    thread or its queue, never clears [terminate], only removes elements
    from [watchPoints] and only extends the trace. *)

Definition apc_frame (s s' : Server) : Prop :=
  watcherThread s' = watcherThread s
  /\ apcQueue s' = apcQueue s
  /\ (terminate s = true -> terminate s' = true)
  /\ (forall p, p ∈ watchPoints s' -> p ∈ watchPoints s)
  /\ (exists t, trace s' = trace s ++ t).

Definition steady {A} (m : M A) : Prop :=
  forall s,
    match m s with
    | Ret _ s' => apc_frame s s'
    | Blocked _ => False
    | Undefined => True
    end.

(** ** The handshake of a registration, thread by thread

    [WatchPoint::awaitListeningStarted] on the caller's thread and
    [WatchPoint::listen], called by [startWatchCallback] on the run-loop
    thread, as two programs that take turns in any order.  Each constructor
    of [CallerPc] and [LoopPc] names the statement that the thread executes
    next.  The condition variable wakes a waiting thread only when it is
    notified. *)

Inductive CallerPc :=
| C_lock            (* unique_lock<mutex> lock(listenerMutex); *)
| C_QueueUserAPC    (* QueueUserAPC(startWatchCallback, threadHandle, this); *)
| C_wait            (* listenerStarted.wait(lock): release the mutex, sleep *)
| C_sleeping        (* ... asleep until notified *)
| C_woken           (* ... notified: take the mutex again *)
| C_unlock          (* lock.unlock(); *)
| C_return          (* return status; *)
| C_returned (ret : WatchStatus).

Inductive LoopPc :=
| L_SleepEx         (* in SleepEx(INFINITE, true), no APC taken yet *)
| L_ReadDirectoryChangesW
| L_lock            (* unique_lock<mutex> lock(listenerMutex); *)
| L_status          (* status = success ? WATCH_LISTENING : WATCH_FAILED_TO_LISTEN; *)
| L_notify_all      (* listenerStarted.notify_all(); *)
| L_unlock          (* lock.unlock(); *)
| L_finished.

Inductive Thread := Caller | Loop.

Record Handshake := {
  hs_caller : CallerPc;
  hs_loop : LoopPc;
  hs_mutex : option Thread;
  hs_queued : bool;         (* the APC is in the queue of the thread *)
  hs_success : bool;         (* what ReadDirectoryChangesW answers *)
  hs_status : WatchStatus   (* the member status of the watch point *)
}.

Definition handshake_start (success : bool) : Handshake :=
  {| hs_caller := C_lock; hs_loop := L_SleepEx; hs_mutex := None;
     hs_queued := false; hs_success := success; hs_status := WATCH_UNINITIALIZED |}.

Definition is_free (m : option Thread) : bool :=
  match m with None => true | Some _ => false end.

(** The step that the caller's thread can take, if any. *)
Definition caller_step (h : Handshake) : option Handshake :=
  match hs_caller h with
  | C_lock =>
      if is_free (hs_mutex h) then
        Some {| hs_caller := C_QueueUserAPC; hs_loop := hs_loop h; hs_mutex := Some Caller;
                hs_queued := hs_queued h; hs_success := hs_success h; hs_status := hs_status h |}
      else None
  | C_QueueUserAPC =>
      Some {| hs_caller := C_wait; hs_loop := hs_loop h; hs_mutex := hs_mutex h;
              hs_queued := true; hs_success := hs_success h; hs_status := hs_status h |}
  | C_wait =>
      Some {| hs_caller := C_sleeping; hs_loop := hs_loop h; hs_mutex := None;
              hs_queued := hs_queued h; hs_success := hs_success h; hs_status := hs_status h |}
  | C_sleeping => None
  | C_woken =>
      if is_free (hs_mutex h) then
        Some {| hs_caller := C_unlock; hs_loop := hs_loop h; hs_mutex := Some Caller;
                hs_queued := hs_queued h; hs_success := hs_success h; hs_status := hs_status h |}
      else None
  | C_unlock =>
      Some {| hs_caller := C_return; hs_loop := hs_loop h; hs_mutex := None;
              hs_queued := hs_queued h; hs_success := hs_success h; hs_status := hs_status h |}
  | C_return =>
      Some {| hs_caller := C_returned (hs_status h); hs_loop := hs_loop h;
              hs_mutex := hs_mutex h;
              hs_queued := hs_queued h; hs_success := hs_success h; hs_status := hs_status h |}
  | C_returned _ => None
  end.

(** The step that the run-loop thread can take, if any. *)
Definition loop_step (h : Handshake) : option Handshake :=
  match hs_loop h with
  | L_SleepEx =>
      if hs_queued h then
        Some {| hs_caller := hs_caller h; hs_loop := L_ReadDirectoryChangesW;
                hs_mutex := hs_mutex h;
                hs_queued := false; hs_success := hs_success h; hs_status := hs_status h |}
      else None
  | L_ReadDirectoryChangesW =>
      Some {| hs_caller := hs_caller h; hs_loop := L_lock; hs_mutex := hs_mutex h;
              hs_queued := hs_queued h; hs_success := hs_success h; hs_status := hs_status h |}
  | L_lock =>
      if is_free (hs_mutex h) then
        Some {| hs_caller := hs_caller h; hs_loop := L_status; hs_mutex := Some Loop;
                hs_queued := hs_queued h; hs_success := hs_success h; hs_status := hs_status h |}
      else None
  | L_status =>
      Some {| hs_caller := hs_caller h; hs_loop := L_notify_all; hs_mutex := hs_mutex h;
              hs_queued := hs_queued h; hs_success := hs_success h;
              hs_status := if hs_success h then WATCH_LISTENING
                           else WATCH_FAILED_TO_LISTEN |}
  | L_notify_all =>
      Some {| hs_caller := match hs_caller h with C_sleeping => C_woken | pc => pc end;
              hs_loop := L_unlock; hs_mutex := hs_mutex h;
              hs_queued := hs_queued h; hs_success := hs_success h; hs_status := hs_status h |}
  | L_unlock =>
      Some {| hs_caller := hs_caller h; hs_loop := L_finished; hs_mutex := None;
              hs_queued := hs_queued h; hs_success := hs_success h; hs_status := hs_status h |}
  | L_finished => None
  end.

Inductive handshake_step (h h' : Handshake) : Prop :=
| step_caller : caller_step h = Some h' -> handshake_step h h'
| step_loop : loop_step h = Some h' -> handshake_step h h'.

Inductive handshake_reaches (h : Handshake) : Handshake -> Prop :=
| reaches_refl : handshake_reaches h h
| reaches_step h1 h2 :
    handshake_reaches h h1 -> handshake_step h1 h2 -> handshake_reaches h h2.

Definition status_of (success : bool) : WatchStatus :=
  if success then WATCH_LISTENING else WATCH_FAILED_TO_LISTEN.

Definition eqb_status (a b : WatchStatus) : bool :=
  match a, b with
  | WATCH_UNINITIALIZED, WATCH_UNINITIALIZED
  | WATCH_LISTENING, WATCH_LISTENING
  | WATCH_NOT_LISTENING, WATCH_NOT_LISTENING
  | WATCH_FAILED_TO_LISTEN, WATCH_FAILED_TO_LISTEN
  | WATCH_FINISHED, WATCH_FINISHED => true
  | _, _ => false
  end.

(** The states that the two threads can be in together. *)
Definition handshake_inv (success : bool) (h : Handshake) : bool :=
  Bool.eqb (hs_success h) success
  && match hs_loop h, hs_caller h, hs_mutex h, hs_queued h with
     | L_SleepEx, C_lock, None, false
     | L_SleepEx, C_QueueUserAPC, Some Caller, false
     | L_SleepEx, C_wait, Some Caller, true
     | L_SleepEx, C_sleeping, None, true
     | L_ReadDirectoryChangesW, C_wait, Some Caller, false
     | L_ReadDirectoryChangesW, C_sleeping, None, false
     | L_lock, C_wait, Some Caller, false
     | L_lock, C_sleeping, None, false
     | L_status, C_sleeping, Some Loop, false =>
         eqb_status (hs_status h) WATCH_UNINITIALIZED
     | L_notify_all, C_sleeping, Some Loop, false
     | L_unlock, C_woken, Some Loop, false
     | L_finished, C_woken, None, false
     | L_finished, C_unlock, Some Caller, false
     | L_finished, C_return, None, false =>
         eqb_status (hs_status h) (status_of success)
     | L_finished, C_returned ret, None, false =>
         eqb_status (hs_status h) (status_of success)
         && eqb_status ret (status_of success)
     | _, _, _, _ => false
     end.

(** How many statements the two threads have left. *)
Definition caller_left (pc : CallerPc) : nat :=
  match pc with
  | C_lock => 7 | C_QueueUserAPC => 6 | C_wait => 5 | C_sleeping => 4
  | C_woken => 3 | C_unlock => 2 | C_return => 1 | C_returned _ => 0
  end.

Definition loop_left (pc : LoopPc) : nat :=
  match pc with
  | L_SleepEx => 6 | L_ReadDirectoryChangesW => 5 | L_lock => 4 | L_status => 3
  | L_notify_all => 2 | L_unlock => 1 | L_finished => 0
  end.

Definition statements_left (h : Handshake) : nat :=
  caller_left (hs_caller h) + loop_left (hs_loop h).

(** Two steps that are not part of the handshake and that the code does
    not exclude.  The [wait] of the caller has no predicate, so it may
    end without any notification ... *)
Definition wake_spuriously (h : Handshake) : option Handshake :=
  match hs_caller h with
  | C_sleeping =>
      Some {| hs_caller := C_woken; hs_loop := hs_loop h; hs_mutex := hs_mutex h;
              hs_queued := hs_queued h; hs_success := hs_success h;
              hs_status := hs_status h |}
  | _ => None
  end.

(** ... and once [listen] has armed the read, its completion may be
    handled before the caller has read [status]: the first statement of
    [handleEvent] writes [status] without taking the mutex. *)
Definition complete_read (h : Handshake) : option Handshake :=
  match hs_loop h with
  | L_finished =>
      Some {| hs_caller := hs_caller h; hs_loop := hs_loop h; hs_mutex := hs_mutex h;
              hs_queued := hs_queued h; hs_success := hs_success h;
              hs_status := WATCH_NOT_LISTENING |}
  | _ => None
  end.

(** ** A concrete run

    The states and the answers of the operating system on which the
    examples below are evaluated. *)

(** An operating system on which every call succeeds; [CreateFileW]
    returns a handle that it has not returned before. *)
Definition os_ok : OS :=
  {| os_CreateFileW := fun t _ => 100 + Z.of_nat (length t);
     os_ReadDirectoryChangesW := fun _ _ => true;
     os_CancelIo := fun _ _ => true;
     os_CloseHandle := fun _ _ => true;
     os_attach_jni := fun _ => true |}.

Definition root : wstring := L "C:\root".

Definition state_of (o : Outcome Server unit) : Server :=
  match o with
  | Ret _ s => s
  | Blocked s => s
  | Undefined => Server_initial
  end.

(** The server after its construction. *)
Definition s_started : Server :=
  state_of (Server_new os_ok Server_initial).

(** The server after the registration of [root]. *)
Definition s_listening : Server :=
  state_of (Server_startWatching os_ok root s_started).

Definition wp_root : WatchPoint :=
  {| path := root; directoryHandle := 105;
     status := WATCH_LISTENING; listenerStarted := true |}.

(** A buffer in which the operating system wrote nothing. *)
Definition no_buffer : Buffer := ∅.

Definition record_of (next action : DWORD) (name : wstring)
    : FILE_NOTIFY_INFORMATION :=
  {| NextEntryOffset := next;
     Action := action;
     FileNameLength := sizeof_wchar_t * Z.of_nat (length name);
     FileName := name |}.

(** A buffer with two records: [a.txt] was added, then modified. *)
Definition two_records : Buffer :=
  <[0 := record_of 24 FILE_ACTION_ADDED (L "a.txt")]>
    (<[24 := record_of 0 FILE_ACTION_MODIFIED (L "a.txt")]> ∅).

(** An operating system that opens no directory. *)
Definition os_no_directory : OS :=
  {| os_CreateFileW := fun _ _ => INVALID_HANDLE_VALUE;
     os_ReadDirectoryChangesW := fun _ _ => true;
     os_CancelIo := fun _ _ => true;
     os_CloseHandle := fun _ _ => true;
     os_attach_jni := fun _ => true |}.

(** The completion of the read of [root] after its cancellation. *)
Definition abort_of_root : APC :=
  handleEventCallback ERROR_OPERATION_ABORTED 0 1%positive no_buffer.

(** The server after [close], once that completion has arrived. *)
Definition s_closed : Server :=
  state_of (Server_close os_ok [abort_of_root] s_listening).

(** The server after a second registration of [root]. *)
Definition s_twice : Server :=
  state_of (Server_startWatching os_ok root s_listening).

(** The process after the JNI call [startWatching([root])]. *)
Definition process_watching : gmap ptr Server :=
  match Java_startWatching os_ok JNI_OK [root] ∅ with
  | Ret _ process => process
  | _ => ∅
  end.

(** ** Further notions

    What the properties beyond the claims speak of. *)

(** A server at rest: its thread waits, nothing is queued on it and no
    termination was requested. *)
Definition quiescent (s : Server) : Prop :=
  watcherThread s = InSleepEx /\ apcQueue s = [] /\ terminate s = false.

(** Every registered pointer is the address of a live watch point. *)
Definition registered_live (s : Server) : Prop :=
  forall q, q ∈ watchPoints s -> is_Some (objects s !! q).

(** ... and none is registered twice. *)
Definition well_formed (s : Server) : Prop :=
  NoDup (watchPoints s) /\ registered_live s.

(** The paths of the registered watch points, in the order of
    [watchPoints]. *)
Definition watched_paths (s : Server) : list wstring :=
  omap (fun p => path <$> objects s !! p) (watchPoints s).

(** The completion that ends the cancelled read of a watch point. *)
Definition abort_of (p : ptr) : APC :=
  handleEventCallback ERROR_OPERATION_ABORTED 0 p ∅.

(** No watch point of [s'] is new, and each has the path and the handle
    that it had in [s]. *)
Definition same_identity (s s' : Server) : Prop :=
  forall q w',
    objects s' !! q = Some w' ->
    exists w, objects s !! q = Some w
              /\ path w' = path w
              /\ directoryHandle w' = directoryHandle w.

(** A computation whose every outcome is related to its start by [R]. *)
Definition respects (R : Server -> Server -> Prop) {A} (m : M A) : Prop :=
  forall s,
    match m s with
    | Ret _ s' => R s s'
    | Blocked s' => R s s'
    | Undefined => True
    end.

Definition keeps_well_formed (s s' : Server) : Prop :=
  well_formed s -> well_formed s'.

(** What every routine of the server keeps, the registration apart: no
    watch point is new or changes its path or its handle; the registered
    pointers stay in their order, though some may go; a registered pointer
    whose watch point was live still has it; [terminate] is not cleared
    and the trace only grows. *)
Definition kept (s s' : Server) : Prop :=
  same_identity s s'
  /\ watchPoints s' `sublist_of` watchPoints s
  /\ (forall q, q ∈ watchPoints s' -> is_Some (objects s !! q) ->
                is_Some (objects s' !! q))
  /\ (terminate s = true -> terminate s' = true)
  /\ (exists t, trace s' = trace s ++ t).

(** The chain of a buffer stays inside the buffer: there is a record at
    the start, and every link that is not 0 leads to a record. *)
Definition chain_closed (buffer : Buffer) : Prop :=
  is_Some (buffer !! 0)
  /\ forall offset info,
       buffer !! offset = Some info ->
       NextEntryOffset info <> 0 ->
       is_Some (buffer !! (offset + NextEntryOffset info)).

(** An operating system that never attaches the thread to the JVM. *)
Definition os_no_jvm : OS :=
  {| os_CreateFileW := fun t _ => 100 + Z.of_nat (length t);
     os_ReadDirectoryChangesW := fun _ _ => true;
     os_CancelIo := fun _ _ => true;
     os_CloseHandle := fun _ _ => true;
     os_attach_jni := fun _ => false |}.

(** An operating system that accepts the first read and refuses every
    later one. *)
Definition os_one_read : OS :=
  {| os_CreateFileW := fun t _ => 100 + Z.of_nat (length t);
     os_ReadDirectoryChangesW := fun t _ => bool_decide (reads t = []);
     os_CancelIo := fun _ _ => true;
     os_CloseHandle := fun _ _ => true;
     os_attach_jni := fun _ => true |}.

(** The caller wakes up before the run-loop thread has taken the APC. *)
Definition woken_spuriously : Interference :=
  {| before_call := []; spurious_wakeup := true;
     before_status := []; before_update := [] |}.

(** A completion without data of the read of the watch point at [p]
    is handled after the caller has read [status]. *)
Definition completed_before_update (p : ptr) : Interference :=
  {| before_call := []; spurious_wakeup := false;
     before_status := [];
     before_update := [[handleEventCallback 0 0 p ∅]] |}.

(** An operating system that opens directories and refuses every read. *)
Definition os_no_read : OS :=
  {| os_CreateFileW := fun t _ => 100 + Z.of_nat (length t);
     os_ReadDirectoryChangesW := fun _ _ => false;
     os_CancelIo := fun _ _ => true;
     os_CloseHandle := fun _ _ => true;
     os_attach_jni := fun _ => true |}.

(** ** Running the code: one lemma per function *)

Lemma run_bind {A B} (m : M A) (k : A -> M B) s a s1 :
  m s = Ret a s1 -> (x <- m ;; k x) s = k a s1.
Proof. intros H. unfold bind. now rewrite H. Qed.

Lemma run_bind_Undefined {A B} (m : M A) (k : A -> M B) s :
  m s = Undefined -> (x <- m ;; k x) s = Undefined.
Proof. intros H. unfold bind. now rewrite H. Qed.

Lemma run_bind_Blocked {A B} (m : M A) (k : A -> M B) s s1 :
  m s = Blocked s1 -> (x <- m ;; k x) s = Blocked s1.
Proof. intros H. unfold bind. now rewrite H. Qed.

Lemma add_trace_add_trace t1 t2 s :
  add_trace t2 (add_trace t1 s) = add_trace (t1 ++ t2) s.
Proof. unfold add_trace; cbn. now rewrite app_assoc. Qed.

Lemma deref_live p w s : objects s !! p = Some w -> deref p s = Ret w s.
Proof. intros H. unfold deref. now rewrite H. Qed.


Lemma modify_live p f w s :
  objects s !! p = Some w ->
  modify p f s = Ret tt (upd_objects (<[p := f w]> (objects s)) s).
Proof.
  intros H. unfold modify. rewrite (run_bind _ _ _ _ _ (deref_live _ _ _ H)).
  reflexivity.
Qed.

Lemma for_each_app {A} (l1 l2 : list A) (body : A -> M unit) s :
  for_each (l1 ++ l2) body s = (for_each l1 body ;; for_each l2 body) s.
Proof.
  revert s. induction l1 as [|x l1 IH]; intros s; cbn.
  - reflexivity.
  - unfold bind in *. destruct (body x s) as [[] s1| |]; try reflexivity.
    apply IH.
Qed.

Lemma c_str_no_NUL (mem : list wchar_t) (n : nat) :
  Forall (fun c => c <> 0) (take n mem) -> take n (c_str mem) = take n mem.
Proof.
  revert n. induction mem as [|c mem IH]; intros [|n] H; cbn in *; try reflexivity.
  inversion H as [|? ? Hc Hrest]; subst.
  destruct (Z.eqb_spec c 0) as [?|_]; [contradiction|].
  cbn. now rewrite IH.
Qed.

Lemma isAbsolute_app (root rest : wstring) :
  isAbsolute root = true -> isAbsolute (root ++ rest) = true.
Proof.
  destruct root as [|c0 [|c1 [|c2 root]]]; cbn; try discriminate.
  - destruct rest; cbn; intros ->; [reflexivity|]. now rewrite orb_true_r.
  - trivial.
Qed.

Section Specs.

Variable os : OS.

Lemma listen_live this w s :
  objects s !! this = Some w ->
  let success := os_ReadDirectoryChangesW os (trace s) (directoryHandle w) in
  WatchPoint_listen os this s =
  Ret tt
    (add_trace
       (E_ReadDirectoryChangesW (directoryHandle w) success ::
        if success then []
        else [E_log WARNING "Couldn't start watching %p for '%ls', error = %d"])
       (upd_objects
          (<[this := notify_all
                       (set_status (if success then WATCH_LISTENING
                                    else WATCH_FAILED_TO_LISTEN) w)]> (objects s))
          s)).
Proof.
  intros H success. unfold WatchPoint_listen.
  rewrite (run_bind _ _ _ _ _ (deref_live _ _ _ H)).
  unfold ReadDirectoryChangesW, get, emit, ret, log, bind at 1 2 3 4; cbn.
  fold success. destruct success; unfold bind.
  - rewrite (modify_live _ _ w) by exact H.
    erewrite modify_live by (cbn; apply lookup_insert_eq).
    cbn. unfold upd_objects, add_trace; cbn. now rewrite insert_insert_eq.
  - rewrite (modify_live _ _ w) by exact H.
    cbn. erewrite modify_live by (cbn; apply lookup_insert_eq).
    cbn. unfold upd_objects, add_trace; cbn.
    now rewrite insert_insert_eq, <- app_assoc.
Qed.

Lemma close_live this w s :
  objects s !! this = Some w ->
  let h := directoryHandle w in
  let r1 := os_CancelIo os (trace s) h in
  let t1 := E_CancelIo h r1 ::
            (if r1 then [] else [E_log SEVERE "Couldn't cancel I/O %p for '%ls': %d"]) in
  let r2 := os_CloseHandle os (trace s ++ t1) h in
  WatchPoint_close os this s =
  Ret tt
    (add_trace
       (t1 ++ E_CloseHandle h r2 ::
        (if r2 then [] else [E_log SEVERE "Couldn't close handle %p for '%ls': %d"]))
       s).
Proof.
  intros H h r1 t1 r2. unfold WatchPoint_close.
  rewrite (run_bind _ _ _ _ _ (deref_live _ _ _ H)).
  unfold CancelIo, CloseHandle, when, log, get, emit, ret, bind; cbn.
  fold h. fold r1. subst t1 r2. destruct r1; cbn.
  - destruct (os_CloseHandle _ _ _); cbn;
      rewrite ?add_trace_add_trace; reflexivity.
  - rewrite <- app_assoc. cbn.
    destruct (os_CloseHandle _ _ _); cbn;
      rewrite ?add_trace_add_trace; reflexivity.
Qed.

Lemma reportFinished_live this w s :
  objects s !! this = Some w ->
  Server_reportFinished this s =
  Ret tt
    (upd_objects (delete this (objects s))
       (add_trace [E_delete_WatchPoint this w]
          (upd_watchPoints (filter (fun q => q <> this) (watchPoints s)) s))).
Proof.
  intros H. unfold Server_reportFinished, delete_WatchPoint.
  unfold get, set_watchPoints, bind at 1 2; cbn.
  erewrite run_bind by (apply deref_live; cbn; exact H).
  reflexivity.
Qed.

Lemma handlePathChanged_live this w info s :
  objects s !! this = Some w ->
  WatchPoint_handlePathChanged this info s =
  Ret tt (add_trace (record_effects w info) s).
Proof.
  intros H. unfold WatchPoint_handlePathChanged.
  rewrite (run_bind _ _ _ _ _ (deref_live _ _ _ H)).
  unfold record_effects, spec_ChangeType, Server_reportEvent, log, emit, ret, bind.
  unfold FILE_ACTION_ADDED, FILE_ACTION_RENAMED_NEW_NAME, FILE_ACTION_REMOVED,
    FILE_ACTION_RENAMED_OLD_NAME, FILE_ACTION_MODIFIED.
  repeat case_decide;
    repeat match goal with
           | |- context [?a =? ?b] => destruct (Z.eqb_spec a b)
           end;
    cbn; rewrite ?add_trace_add_trace; try reflexivity; exfalso; lia.
Qed.

Lemma handle_records_live fuel this w buffer current infos s :
  objects s !! this = Some w ->
  records_from fuel buffer current = Some infos ->
  handle_records fuel this buffer current s =
  Ret tt (add_trace (flat_map (record_effects w) infos) s).
Proof.
  revert current infos s.
  induction fuel as [|fuel IH]; intros current infos s H Hrec; [discriminate|].
  cbn [handle_records records_from] in *.
  destruct (buffer !! current) as [info|]; [|discriminate].
  erewrite run_bind by (apply handlePathChanged_live; exact H).
  destruct (NextEntryOffset info =? 0).
  - injection Hrec as <-. cbn [flat_map]. now rewrite app_nil_r.
  - destruct (records_from fuel buffer (current + NextEntryOffset info))
      as [rest|] eqn:Hrest; [|discriminate].
    injection Hrec as <-.
    rewrite (IH _ rest) by (trivial; exact H).
    rewrite add_trace_add_trace. reflexivity.
Qed.

Lemma handle_records_lost fuel this w buffer current s :
  objects s !! this = Some w ->
  records_from fuel buffer current = None ->
  handle_records fuel this buffer current s = Undefined.
Proof.
  revert current s.
  induction fuel as [|fuel IH]; intros current s H Hrec; [reflexivity|].
  cbn [handle_records records_from] in *.
  destruct (buffer !! current) as [info|]; [|reflexivity].
  erewrite run_bind by (apply handlePathChanged_live; exact H).
  destruct (NextEntryOffset info =? 0); [discriminate|].
  destruct (records_from fuel buffer (current + NextEntryOffset info))
    as [rest|] eqn:Hrest; [discriminate|].
  apply IH; [exact H|exact Hrest].
Qed.

(** The fuel of the loop is enough: with more of it the loop visits the
    same records. *)
Lemma records_from_fuel (buffer : Buffer) :
  unsigned_offsets buffer ->
  forall (fuel fuel' : nat) (current : Z),
    (size (from_offset buffer current) < fuel)%nat ->
    (fuel <= fuel')%nat ->
    records_from fuel' buffer current = records_from fuel buffer current.
Proof.
  intros Hpos.
  induction fuel as [|fuel IH]; intros fuel' current Hsize Hle; [lia|].
  destruct fuel' as [|fuel']; [lia|].
  cbn [records_from].
  destruct (buffer !! current) as [info|] eqn:Hcur; [|reflexivity].
  destruct (Z.eqb_spec (NextEntryOffset info) 0) as [|Hnext]; [reflexivity|].
  pose proof (Hpos _ _ Hcur) as Hge.
  rewrite (IH fuel' (current + NextEntryOffset info)); [reflexivity| |lia].
  assert (Hsub : from_offset buffer (current + NextEntryOffset info)
                 ⊂ from_offset buffer current).
  { apply map_subset_alt. split.
    - apply map_filter_subseteq_ext. intros i x _. cbn. lia.
    - exists current. split.
      + unfold from_offset. apply map_lookup_filter_None. right.
        intros x _. cbn. lia.
      + exists info. apply map_lookup_filter_Some. split; [exact Hcur|cbn; lia]. }
  apply map_subset_size in Hsub. lia.
Qed.

Lemma handle_records_fuel (fuel : nat) this w (buffer : Buffer) s :
  unsigned_offsets buffer ->
  objects s !! this = Some w ->
  (S (size buffer) <= fuel)%nat ->
  handle_records fuel this buffer 0 s =
  handle_records (S (size buffer)) this buffer 0 s.
Proof.
  intros Hpos H Hle.
  assert (Hsize : (size (from_offset buffer 0) < S (size buffer))%nat).
  { pose proof (map_subseteq_size (from_offset buffer 0) buffer
                  (map_filter_subseteq _ _)). lia. }
  pose proof (records_from_fuel buffer Hpos _ fuel 0 Hsize Hle) as Hsame.
  destruct (records_from (S (size buffer)) buffer 0) as [infos|] eqn:Hrec.
  - rewrite (handle_records_live _ _ _ _ _ infos _ H Hsame).
    now rewrite (handle_records_live _ _ _ _ _ infos _ H Hrec).
  - rewrite (handle_records_lost _ _ _ _ _ _ H Hsame).
    now rewrite (handle_records_lost _ _ _ _ _ _ H Hrec).
Qed.

(** A completion that reports the end of the watch. *)
Lemma handleEvent_aborted this w bytesTransferred buffer s :
  objects s !! this = Some w ->
  WatchPoint_handleEvent os this ERROR_OPERATION_ABORTED bytesTransferred buffer s =
  Ret tt
    {| terminate := terminate s;
       watchPoints := filter (fun q => q <> this) (watchPoints s);
       objects := delete this (objects s);
       watcherThread := watcherThread s;
       apcQueue := apcQueue s;
       trace := trace s ++ [E_log INFO "Finished watching '%ls'";
                            E_delete_WatchPoint this (set_status WATCH_FINISHED w)] |}.
Proof.
  intros H. unfold WatchPoint_handleEvent.
  erewrite run_bind by (apply modify_live; exact H).
  cbn [Z.eqb ERROR_OPERATION_ABORTED Pos.eqb].
  unfold log, emit, bind at 1; cbn.
  erewrite run_bind by (apply modify_live; cbn; apply lookup_insert_eq).
  erewrite reportFinished_live by (cbn; apply lookup_insert_eq).
  unfold upd_objects, add_trace, upd_watchPoints; cbn.
  rewrite !delete_insert_eq, <- app_assoc. reflexivity.
Qed.

(** Any other completion: the events of the buffer, or the invalidation of
    the root, then [listen]. *)
Lemma handleEvent_completed this w errorCode bytesTransferred buffer infos s :
  objects s !! this = Some w ->
  errorCode <> ERROR_OPERATION_ABORTED ->
  (bytesTransferred <> 0 -> records buffer = Some infos) ->
  let events :=
    if bytesTransferred =? 0
    then [E_pathChanged FILE_EVENT_INVALIDATE (path w)]
    else flat_map (record_effects w) infos in
  let success :=
    os_ReadDirectoryChangesW os (trace s ++ events) (directoryHandle w) in
  WatchPoint_handleEvent os this errorCode bytesTransferred buffer s =
  Ret tt
    (if success then
       {| terminate := terminate s;
          watchPoints := watchPoints s;
          objects := <[this := notify_all (set_status WATCH_LISTENING w)]> (objects s);
          watcherThread := watcherThread s;
          apcQueue := apcQueue s;
          trace := trace s ++ events ++
                   [E_ReadDirectoryChangesW (directoryHandle w) true] |}
     else
       {| terminate := terminate s;
          watchPoints := filter (fun q => q <> this) (watchPoints s);
          objects := delete this (objects s);
          watcherThread := watcherThread s;
          apcQueue := apcQueue s;
          trace := trace s ++ events ++
                   [E_ReadDirectoryChangesW (directoryHandle w) false;
                    E_log WARNING "Couldn't start watching %p for '%ls', error = %d";
                    E_delete_WatchPoint this
                      (notify_all (set_status WATCH_FAILED_TO_LISTEN w))] |}).
Proof.
  intros H Hne Hrec events success. unfold WatchPoint_handleEvent.
  erewrite run_bind by (apply modify_live; exact H).
  destruct (Z.eqb_spec errorCode ERROR_OPERATION_ABORTED) as [|_]; [contradiction|].
  set (s1 := upd_objects _ s).
  assert (H1 : objects s1 !! this = Some (set_status WATCH_NOT_LISTENING w))
    by (cbn; apply lookup_insert_eq).
  assert (Hev : (if bytesTransferred =? 0
                 then w0 <- deref this ;; Server_reportEvent FILE_EVENT_INVALIDATE (path w0)
                 else handle_records (S (size buffer)) this buffer 0) s1
                = Ret tt (add_trace events s1)).
  { subst events. destruct (Z.eqb_spec bytesTransferred 0) as [|Hbytes].
    - erewrite run_bind by (apply deref_live; exact H1). reflexivity.
    - rewrite (handle_records_live _ _ _ _ _ infos _ H1 (Hrec Hbytes)). reflexivity. }
  erewrite run_bind by exact Hev.
  erewrite run_bind by (apply listen_live; cbn; exact H1).
  cbn [trace add_trace directoryHandle set_status s1 upd_objects].
  fold success. destruct success.
  - erewrite run_bind by (apply deref_live; cbn; apply lookup_insert_eq).
    cbn. unfold ret, add_trace, upd_objects; cbn.
    rewrite insert_insert_eq, <- app_assoc. reflexivity.
  - erewrite run_bind by (apply deref_live; cbn; apply lookup_insert_eq).
    cbn. unfold when. rewrite bool_decide_eq_false_2 by discriminate.
    cbn [negb].
    erewrite reportFinished_live by (cbn; apply lookup_insert_eq).
    unfold ret, add_trace, upd_objects, upd_watchPoints; cbn.
    rewrite !delete_insert_eq, <- !app_assoc. reflexivity.
Qed.

End Specs.

Example s_listening_run :
  Server_startWatching os_ok root s_started = Ret tt s_listening
  /\ watchPoints s_listening = [1%positive]
  /\ objects s_listening !! 1%positive = Some wp_root
  /\ watcherThread s_listening = InSleepEx
  /\ apcQueue s_listening = [].
Proof. vm_compute. repeat split. Qed.

(** ** Properties *)

Example c_str_stops_at_NUL : c_str (L "ab" ++ 0 :: L "cd") = L "ab".
Proof. reflexivity. Qed.

Example changedPath_of_a_txt :
  changedPath_of root (record_of 0 FILE_ACTION_ADDED (L "a.txt")) = L "C:\root\a.txt".
Proof. reflexivity. Qed.

(** A completion with two records: both events reach the sink, in the
    order of the buffer, and the read is issued again. *)
Example handleEvent_two_records :
  exists s',
    WatchPoint_handleEvent os_ok 1%positive 0 46 two_records s_listening = Ret tt s'
    /\ reported (trace s') =
       [(FILE_EVENT_CREATED, L "C:\root\a.txt"); (FILE_EVENT_MODIFIED, L "C:\root\a.txt")]
    /\ reads (trace s') = [105; 105]
    /\ objects s' !! 1%positive = Some wp_root.
Proof. eexists. vm_compute. repeat split. Qed.

Lemma reported_app t1 t2 : reported (t1 ++ t2) = reported t1 ++ reported t2.
Proof. apply omap_app. Qed.

Lemma reads_app t1 t2 : reads (t1 ++ t2) = reads t1 ++ reads t2.
Proof. apply omap_app. Qed.

Lemma handle_calls_app t1 t2 :
  handle_calls (t1 ++ t2) = handle_calls t1 ++ handle_calls t2.
Proof. apply omap_app. Qed.

Lemma reported_record_effects w info :
  reported (record_effects w info) =
  [(spec_ChangeType (Action info), changedPath_of (path w) info)].
Proof.
  unfold record_effects. destruct (spec_ChangeType (Action info)); reflexivity.
Qed.

Lemma reads_record_effects w info : reads (record_effects w info) = [].
Proof.
  unfold record_effects. destruct (spec_ChangeType (Action info)); reflexivity.
Qed.

Lemma reported_flat_map_record_effects w infos :
  reported (flat_map (record_effects w) infos) =
  map (fun info => (spec_ChangeType (Action info), changedPath_of (path w) info)) infos.
Proof.
  induction infos as [|info infos IH]; cbn [flat_map map]; [reflexivity|].
  now rewrite reported_app, reported_record_effects, IH.
Qed.

(** C1. For every record that the event handler of a watch point
    processes, one event is reported to the server, and its type is given
    by the action code of the record: CREATED for [FILE_ACTION_ADDED] and
    [FILE_ACTION_RENAMED_NEW_NAME], REMOVED for [FILE_ACTION_REMOVED] and
    [FILE_ACTION_RENAMED_OLD_NAME], MODIFIED for [FILE_ACTION_MODIFIED],
    UNKNOWN for every other code. *)
Theorem handlePathChanged_change_type
    (this : ptr) (w : WatchPoint) (info : FILE_NOTIFY_INFORMATION) (s : Server) :
  objects s !! this = Some w ->
  exists (type : FileEvent) (changedPath : wstring) (s' : Server),
    WatchPoint_handlePathChanged this info s = Ret tt s'
    /\ reported (trace s') = reported (trace s) ++ [(type, changedPath)]
    /\ (Action info = FILE_ACTION_ADDED \/ Action info = FILE_ACTION_RENAMED_NEW_NAME ->
        type = FILE_EVENT_CREATED)
    /\ (Action info = FILE_ACTION_REMOVED \/ Action info = FILE_ACTION_RENAMED_OLD_NAME ->
        type = FILE_EVENT_REMOVED)
    /\ (Action info = FILE_ACTION_MODIFIED -> type = FILE_EVENT_MODIFIED)
    /\ (Action info <> FILE_ACTION_ADDED ->
        Action info <> FILE_ACTION_RENAMED_NEW_NAME ->
        Action info <> FILE_ACTION_REMOVED ->
        Action info <> FILE_ACTION_RENAMED_OLD_NAME ->
        Action info <> FILE_ACTION_MODIFIED ->
        type = FILE_EVENT_UNKNOWN).
Proof.
  intros H.
  exists (spec_ChangeType (Action info)), (changedPath_of (path w) info).
  eexists. split; [apply handlePathChanged_live; exact H|].
  split.
  { cbn [trace add_trace]. now rewrite reported_app, reported_record_effects. }
  unfold spec_ChangeType, FILE_ACTION_ADDED, FILE_ACTION_RENAMED_NEW_NAME,
    FILE_ACTION_REMOVED, FILE_ACTION_RENAMED_OLD_NAME, FILE_ACTION_MODIFIED.
  repeat split; intros; repeat case_decide; try reflexivity; exfalso; lia.
Qed.

(** C1 on the record of a rename to [a.txt] under [root]. *)
Lemma handlePathChanged_change_type_witness :
  objects s_listening !! 1%positive = Some wp_root
  /\ exists (type : FileEvent) (changedPath : wstring) (s' : Server),
       WatchPoint_handlePathChanged 1%positive
         (record_of 0 FILE_ACTION_RENAMED_NEW_NAME (L "a.txt")) s_listening = Ret tt s'
       /\ reported (trace s') = reported (trace s_listening) ++ [(type, changedPath)]
       /\ type = FILE_EVENT_CREATED.
Proof.
  assert (H : objects s_listening !! 1%positive = Some wp_root)
    by (vm_compute; reflexivity).
  split; [exact H|].
  destruct (handlePathChanged_change_type 1%positive wp_root
              (record_of 0 FILE_ACTION_RENAMED_NEW_NAME (L "a.txt")) s_listening H)
    as (type & changedPath & s' & Hrun & Hrep & Hcreated & _).
  exists type, changedPath, s'. repeat split; [exact Hrun|exact Hrep|].
  apply Hcreated. right. reflexivity.
Defined.

(** The same for a whole buffer: a completion that transferred data
    reports one event per record of the chain, in the order of the
    chain. *)
Lemma handleEvent_reports_each_record (os : OS) (this : ptr) (w : WatchPoint)
    (errorCode bytesTransferred : DWORD) (buffer : Buffer)
    (infos : list FILE_NOTIFY_INFORMATION) (s : Server) :
  objects s !! this = Some w ->
  errorCode <> ERROR_OPERATION_ABORTED ->
  bytesTransferred <> 0 ->
  records buffer = Some infos ->
  exists s',
    WatchPoint_handleEvent os this errorCode bytesTransferred buffer s = Ret tt s'
    /\ reported (trace s') =
       reported (trace s) ++
       map (fun info => (spec_ChangeType (Action info), changedPath_of (path w) info))
           infos.
Proof.
  intros H Hne Hbytes Hrec. eexists. split.
  { apply (handleEvent_completed os this w errorCode bytesTransferred buffer infos);
      [exact H|exact Hne|intros _; exact Hrec]. }
  destruct (Z.eqb_spec bytesTransferred 0) as [|_]; [contradiction|].
  destruct (os_ReadDirectoryChangesW _ _ _); cbn [trace];
    rewrite !reported_app, reported_flat_map_record_effects; cbn;
    now rewrite app_nil_r.
Qed.

Example records_of_two_records :
  records two_records =
  Some [record_of 24 FILE_ACTION_ADDED (L "a.txt");
        record_of 0 FILE_ACTION_MODIFIED (L "a.txt")].
Proof. vm_compute. reflexivity. Qed.

(** C3, as stated, fails: the completion that ends a cancelled read has
    error code [ERROR_OPERATION_ABORTED] and transfers zero bytes; the
    handler then reports nothing and issues no further read. *)
Lemma zero_bytes_aborted_reports_nothing :
  exists s',
    WatchPoint_handleEvent os_ok 1%positive ERROR_OPERATION_ABORTED 0 no_buffer
      s_listening = Ret tt s'
    /\ reported (trace s') = reported (trace s_listening)
    /\ reads (trace s') = reads (trace s_listening)
    /\ objects s' !! 1%positive = None.
Proof. eexists. vm_compute. repeat split. Qed.

(** C3, amended. For every completion that transfers zero bytes and whose
    error code is not [ERROR_OPERATION_ABORTED], the watch point reports
    exactly one event, INVALIDATED for the watched root, and then issues
    the next read; when that read is accepted the watch point is listening
    again. *)
Theorem handleEvent_zero_bytes_invalidates (os : OS) (this : ptr) (w : WatchPoint)
    (errorCode : DWORD)
    (buffer : Buffer) (s : Server) :
  objects s !! this = Some w ->
  errorCode <> ERROR_OPERATION_ABORTED ->
  exists (s' : Server) (success : bool) (rest : Trace),
    WatchPoint_handleEvent os this errorCode 0 buffer s = Ret tt s'
    /\ trace s' =
       trace s ++
       [E_pathChanged FILE_EVENT_INVALIDATE (path w);
        E_ReadDirectoryChangesW (directoryHandle w) success] ++ rest
    /\ reported rest = []
    /\ reads rest = []
    /\ (success = true ->
        rest = []
        /\ watchPoints s' = watchPoints s
        /\ exists w', objects s' !! this = Some w'
                      /\ status w' = WATCH_LISTENING
                      /\ path w' = path w
                      /\ directoryHandle w' = directoryHandle w).
Proof.
  intros H Hne.
  assert (Hrec : 0 <> 0 -> records buffer = Some []) by (intros Hz; now destruct Hz).
  pose proof (handleEvent_completed os this w errorCode 0 buffer [] s H Hne Hrec)
    as Hrun.
  cbn [Z.eqb] in Hrun.
  destruct (os_ReadDirectoryChangesW os _ _) eqn:Hread.
  - eexists _, true, []. split; [exact Hrun|]. cbn [trace].
    repeat split.
    eexists. split; [cbn; apply lookup_insert_eq|]. repeat split.
  - eexists _, false, _. split; [exact Hrun|]. cbn [trace].
    split; [reflexivity|]. split; [reflexivity|]. split; [reflexivity|].
    intros; discriminate.
Qed.

(** C3, amended, on a completion of the read of [root] without error and
    without data. *)
Lemma handleEvent_zero_bytes_invalidates_witness :
  objects s_listening !! 1%positive = Some wp_root
  /\ 0 <> ERROR_OPERATION_ABORTED
  /\ exists (s' : Server) (success : bool) (rest : Trace),
       WatchPoint_handleEvent os_ok 1%positive 0 0 no_buffer s_listening = Ret tt s'
       /\ trace s' =
          trace s_listening ++
          [E_pathChanged FILE_EVENT_INVALIDATE root;
           E_ReadDirectoryChangesW 105 success] ++ rest.
Proof.
  assert (H : objects s_listening !! 1%positive = Some wp_root)
    by (vm_compute; reflexivity).
  assert (Hne : 0 <> ERROR_OPERATION_ABORTED) by (unfold ERROR_OPERATION_ABORTED; lia).
  split; [exact H|]. split; [exact Hne|].
  destruct (handleEvent_zero_bytes_invalidates os_ok 1%positive wp_root 0 no_buffer
              s_listening H Hne) as (s' & success & rest & Hrun & Htrace & _).
  exists s', success, rest. split; [exact Hrun|exact Htrace].
Defined.

(** C4. For every completion whose error code is
    [ERROR_OPERATION_ABORTED], the watch point takes the status FINISHED,
    the server removes it from [watchPoints] and destroys it, and nothing
    is reported to the sink. *)
Theorem handleEvent_aborted_finishes (os : OS) (this : ptr) (w : WatchPoint)
    (bytesTransferred : DWORD)
    (buffer : Buffer) (s : Server) :
  objects s !! this = Some w ->
  exists (s' : Server) (w' : WatchPoint),
    WatchPoint_handleEvent os this ERROR_OPERATION_ABORTED bytesTransferred buffer s
    = Ret tt s'
    /\ status w' = WATCH_FINISHED
    /\ last (trace s') = Some (E_delete_WatchPoint this w')
    /\ watchPoints s' = filter (fun q => q <> this) (watchPoints s)
    /\ (this ∉ watchPoints s')
    /\ objects s' = delete this (objects s)
    /\ objects s' !! this = None
    /\ reported (trace s') = reported (trace s).
Proof.
  intros H. eexists _, (set_status WATCH_FINISHED w).
  split; [apply handleEvent_aborted; exact H|].
  cbn [trace watchPoints objects].
  repeat split.
  - now rewrite last_app.
  - intros Hin. apply list_elem_of_filter in Hin. now destruct Hin.
  - apply lookup_delete_eq.
  - rewrite reported_app. cbn. now rewrite app_nil_r.
Qed.

(** C4 on the completion of the cancelled read of [root]. *)
Lemma handleEvent_aborted_finishes_witness :
  objects s_listening !! 1%positive = Some wp_root
  /\ exists (s' : Server) (w' : WatchPoint),
       WatchPoint_handleEvent os_ok 1%positive ERROR_OPERATION_ABORTED 0 no_buffer
         s_listening = Ret tt s'
       /\ status w' = WATCH_FINISHED
       /\ last (trace s') = Some (E_delete_WatchPoint 1%positive w')
       /\ watchPoints s' = filter (fun q => q <> 1%positive) (watchPoints s_listening)
       /\ (1%positive ∉ watchPoints s')
       /\ objects s' = delete 1%positive (objects s_listening)
       /\ objects s' !! 1%positive = None
       /\ reported (trace s') = reported (trace s_listening).
Proof.
  assert (H : objects s_listening !! 1%positive = Some wp_root)
    by (vm_compute; reflexivity).
  split; [exact H|].
  exact (handleEvent_aborted_finishes os_ok 1%positive wp_root 0 no_buffer
           s_listening H).
Defined.

(** The path delivered for a record that has a name: the watched root
    joined with the name, which is absolute when the root is. *)
Lemma changedPath_of_named (path : wstring) (info : FILE_NOTIFY_INFORMATION) :
  record_name info <> [] ->
  Forall (fun c => c <> 0) (record_name info) ->
  changedPath_of path info = join_path path (record_name info).
Proof.
  intros Hne Hnul. unfold changedPath_of, substr, record_name in *.
  rewrite drop_0, c_str_no_NUL by exact Hnul.
  destruct (take _ (FileName info)); [contradiction|reflexivity].
Qed.

Lemma handlePathChanged_named_record (this : ptr) (w : WatchPoint)
    (info : FILE_NOTIFY_INFORMATION) (s : Server) :
  objects s !! this = Some w ->
  isAbsolute (path w) = true ->
  record_name info <> [] ->
  Forall (fun c => c <> 0) (record_name info) ->
  exists type s',
    WatchPoint_handlePathChanged this info s = Ret tt s'
    /\ reported (trace s') =
       reported (trace s) ++ [(type, join_path (path w) (record_name info))]
    /\ isAbsolute (join_path (path w) (record_name info)) = true.
Proof.
  intros H Habs Hne Hnul. eexists _, _.
  split; [apply handlePathChanged_live; exact H|]. split.
  - cbn [trace add_trace].
    rewrite reported_app, reported_record_effects, changedPath_of_named by assumption.
    reflexivity.
  - now apply isAbsolute_app.
Qed.

(** C9 on the code: for a record without a name the test
    [!changedPath.empty()] keeps the watched root away from the path, and
    the sink receives the empty path, which is not absolute. *)
Theorem handlePathChanged_empty_name_not_absolute :
  objects s_listening !! 1%positive = Some wp_root
  /\ isAbsolute (path wp_root) = true
  /\ exists s',
       WatchPoint_handlePathChanged 1%positive (record_of 0 FILE_ACTION_MODIFIED [])
         s_listening = Ret tt s'
       /\ reported (trace s') =
          reported (trace s_listening) ++ [(FILE_EVENT_MODIFIED, [])]
       /\ isAbsolute [] = false
       /\ [] <> join_path (path wp_root) (record_name (record_of 0 FILE_ACTION_MODIFIED [])).
Proof.
  apply conj; [vm_compute; reflexivity|].
  apply conj; [reflexivity|]. eexists. vm_compute. repeat split. discriminate.
Qed.

Lemma close_all (os : OS) (ps : list ptr) (ws : list WatchPoint) (s : Server) :
  live_at s ps ws ->
  exists s',
    for_each ps (WatchPoint_close os) s = Ret tt s'
    /\ terminate s' = terminate s
    /\ watchPoints s' = watchPoints s
    /\ objects s' = objects s
    /\ watcherThread s' = watcherThread s
    /\ apcQueue s' = apcQueue s
    /\ handle_calls (trace s') =
       handle_calls (trace s) ++ flat_map closing_calls ws.
Proof.
  unfold live_at. revert ws s.
  induction ps as [|p ps IH]; intros ws s H; inversion H as [|? w ? ws' Hp Hrest]; subst.
  - exists s. cbn. now rewrite app_nil_r.
  - cbn [for_each flat_map].
    pose proof (close_live os p w s Hp) as Hclose. cbn zeta in Hclose.
    erewrite run_bind by exact Hclose.
    match type of Hclose with _ = Ret tt ?x => set (s1 := x) in * end.
    destruct (IH ws' s1) as (s' & Hrun & Ht & Hw & Ho & Hth & Hq & Hcalls);
      [exact Hrest|].
    exists s'. split; [exact Hrun|]. repeat split; try assumption.
    rewrite Hcalls. subst s1. cbn [trace add_trace].
    rewrite handle_calls_app, <- app_assoc. f_equal. f_equal.
    rewrite handle_calls_app.
    destruct (os_CancelIo _ _ _), (os_CloseHandle _ _ _); reflexivity.
Qed.

Lemma run_condition_false (s : Server) :
  run_condition s = false <-> terminate s = true /\ watchPoints s = [].
Proof.
  unfold run_condition.
  destruct (terminate s), (watchPoints s) as [|p l]; cbn [negb orb length];
    try destruct (Z.ltb_spec 0 (Z.of_nat (S (length l))));
    try (intuition congruence); lia.
Qed.

Lemma run_loop_spec (s : Server) :
  run_loop s =
  Ret tt (if run_condition s then upd_watcherThread InSleepEx s
          else upd_watcherThread Exited
                 (add_trace [E_log INFO "Server thread %d finishing"; E_detach_jni] s)).
Proof.
  unfold run_loop, get, bind at 1. destruct (run_condition s); [reflexivity|].
  unfold log, emit, set_watcherThread, bind. now rewrite add_trace_add_trace.
Qed.

(** The only way in which the run-loop thread proceeds: either nothing is
    queued and it keeps waiting, or the queued routines run and the
    condition of the loop decides. *)
Lemma SleepEx_return_cases (os : OS) (s : Server) :
  watcherThread s = InSleepEx ->
  (apcQueue s = [] /\ SleepEx_return os s = Ret tt s)
  \/ (apcQueue s <> []
      /\ SleepEx_return os s =
         (for_each (apcQueue s) (call os) ;; run_loop) (upd_apcQueue [] s)).
Proof.
  intros Hth.
  destruct (apcQueue s) as [|a q] eqn:Hq; [left|right];
    (split; [try reflexivity; discriminate|]);
    unfold SleepEx_return, get, set_apcQueue, bind; cbn;
    rewrite Hth, Hq; reflexivity.
Qed.

(** C2. The termination APC first sets [terminate] and then calls
    [CancelIo] and [CloseHandle] on every registered watch point, in the
    order of [watchPoints]: the flag is set before the first call and is
    still set after each of them.  The run-loop thread leaves its loop
    only when [terminate] is set and [watchPoints] is empty. *)
Theorem termination_protocol (os : OS) (s : Server) (ws : list WatchPoint) :
  live_at s (watchPoints s) ws ->
  (exists s0,
     set_terminate true s = Ret tt s0
     /\ terminate s0 = true
     /\ trace s0 = trace s
     /\ call os requestTerminationCallback s =
        for_each (watchPoints s) (WatchPoint_close os) s0
     /\ forall k : nat,
          exists sk,
            for_each (take k (watchPoints s)) (WatchPoint_close os) s0 = Ret tt sk
            /\ terminate sk = true
            /\ handle_calls (trace sk) =
               handle_calls (trace s) ++ flat_map closing_calls (take k ws))
  /\ (exists s',
        call os requestTerminationCallback s = Ret tt s'
        /\ terminate s' = true
        /\ watchPoints s' = watchPoints s
        /\ objects s' = objects s
        /\ handle_calls (trace s') =
           handle_calls (trace s) ++ flat_map closing_calls ws)
  /\ (forall s0 s',
        run_loop s0 = Ret tt s' ->
        (watcherThread s' = Exited <-> terminate s0 = true /\ watchPoints s0 = [])
        /\ (watcherThread s' = InSleepEx <-> ~ (terminate s0 = true /\ watchPoints s0 = [])))
  /\ (forall s0 s',
        watcherThread s0 = InSleepEx ->
        SleepEx_return os s0 = Ret tt s' ->
        (watcherThread s' = Exited -> terminate s' = true /\ watchPoints s' = [])
        /\ (apcQueue s0 <> [] -> terminate s' = true /\ watchPoints s' = [] ->
            watcherThread s' = Exited)).
Proof.
  intros Hlive.
  assert (Hprefix : forall k, live_at (upd_terminate true s)
                                (take k (watchPoints s)) (take k ws)).
  { intros k. unfold live_at in *. cbn [objects upd_terminate].
    now apply Forall2_take. }
  split; [|split; [|split]].
  - exists (upd_terminate true s). repeat split.
    intros k. destruct (close_all os _ _ _ (Hprefix k))
      as (sk & Hrun & Ht & _ & _ & _ & _ & Hcalls).
    exists sk. repeat split; assumption.
  - pose proof (Hprefix (length (watchPoints s))) as Hall.
    rewrite firstn_all in Hall.
    rewrite (Forall2_length _ _ _ Hlive), firstn_all in Hall.
    destruct (close_all os _ _ _ Hall) as (s' & Hrun & Ht & Hw & Ho & _ & _ & Hcalls).
    exists s'. repeat split; assumption.
  - intros s0 s' Hrun. rewrite run_loop_spec in Hrun.
    injection Hrun as <-. rewrite <- run_condition_false.
    destruct (run_condition s0); cbn; split; split; intros; congruence.
  - intros s0 s' Hth Hrun.
    destruct (SleepEx_return_cases os s0 Hth) as [[Hq Heq]|[Hq Heq]];
      rewrite Heq in Hrun.
    + injection Hrun as <-. split; [congruence|contradiction].
    + unfold bind in Hrun.
      destruct (for_each _ _ _) as [[] s1| |]; try discriminate.
      rewrite run_loop_spec in Hrun. injection Hrun as <-.
      destruct (run_condition s1) eqn:Hc; cbn -[run_condition].
      * split; [discriminate|]. intros _ Hdone.
        apply run_condition_false in Hdone. congruence.
      * apply run_condition_false in Hc. split; auto.
Qed.

(** C2 on the server that watches [root]. *)
Lemma termination_protocol_witness :
  live_at s_listening (watchPoints s_listening) [wp_root]
  /\ exists s',
       call os_ok requestTerminationCallback s_listening = Ret tt s'
       /\ terminate s' = true
       /\ watchPoints s' = watchPoints s_listening
       /\ objects s' = objects s_listening
       /\ handle_calls (trace s') =
          handle_calls (trace s_listening) ++ flat_map closing_calls [wp_root].
Proof.
  assert (H : live_at s_listening (watchPoints s_listening) [wp_root]).
  { vm_compute. repeat constructor. }
  split; [exact H|].
  exact (proj1 (proj2 (termination_protocol os_ok s_listening [wp_root] H))).
Defined.

(** ** The frame of the run-loop routines *)

Lemma apc_frame_refl s : apc_frame s s.
Proof.
  repeat split; auto. exists []. now rewrite app_nil_r.
Qed.

Lemma apc_frame_trans s1 s2 s3 :
  apc_frame s1 s2 -> apc_frame s2 s3 -> apc_frame s1 s3.
Proof.
  intros (Hth & Hq & Ht & Hw & t & Htr) (Hth' & Hq' & Ht' & Hw' & t' & Htr').
  repeat split; try congruence; auto.
  exists (t ++ t'). rewrite Htr', Htr. now rewrite app_assoc.
Qed.

Lemma steady_ret {A} (a : A) : steady (ret a).
Proof. intros s. apply apc_frame_refl. Qed.

Lemma steady_bind {A B} (m : M A) (k : A -> M B) :
  steady m -> (forall a, steady (k a)) -> steady (x <- m ;; k x).
Proof.
  intros Hm Hk s. unfold bind. specialize (Hm s).
  destruct (m s) as [a s1| |]; [|assumption|exact I].
  specialize (Hk a s1). destruct (k a s1); [|assumption|exact I].
  eapply apc_frame_trans; eassumption.
Qed.

Lemma steady_get : steady get.
Proof. intros s. apply apc_frame_refl. Qed.

Lemma steady_emit e : steady (emit e).
Proof. intros s. cbn. repeat split; auto. now exists [e]. Qed.

Lemma steady_log level format : steady (log level format).
Proof. apply steady_emit. Qed.

Lemma steady_deref p : steady (deref p).
Proof. intros s. unfold deref. destruct (objects s !! p); [apply apc_frame_refl|exact I]. Qed.

Lemma steady_set_objects h : steady (set_objects h).
Proof. intros s. cbn. repeat split; auto. exists []. now rewrite app_nil_r. Qed.

Lemma steady_set_terminate_true : steady (set_terminate true).
Proof. intros s. cbn. repeat split; auto. exists []. now rewrite app_nil_r. Qed.

Lemma steady_when b m : steady m -> steady (when b m).
Proof. intros H. destruct b; [exact H|apply steady_ret]. Qed.

Lemma steady_for_each {A} (l : list A) (body : A -> M unit) :
  (forall x, steady (body x)) -> steady (for_each l body).
Proof.
  intros H. induction l as [|x l IH]; cbn [for_each].
  - apply steady_ret.
  - apply steady_bind; [apply H|intros _; exact IH].
Qed.

Create HintDb steady.
#[local] Hint Resolve steady_ret steady_get steady_emit steady_log steady_deref
  steady_set_objects steady_set_terminate_true : steady.

Ltac steady :=
  repeat first
    [ solve [auto with steady]
    | apply steady_bind; [|intros ?]
    | apply steady_when
    | apply steady_for_each; intros ?
    | match goal with
      | |- steady (if ?b then _ else _) => destruct b
      | |- steady (match ?x with _ => _ end) => destruct x
      end ].

Lemma steady_store p w : steady (store p w).
Proof. unfold store. steady. Qed.

Lemma steady_modify p f : steady (modify p f).
Proof. unfold modify. steady. Qed.

#[local] Hint Resolve steady_store steady_modify : steady.

Lemma steady_reportFinished p : steady (Server_reportFinished p).
Proof.
  intros s. unfold Server_reportFinished, delete_WatchPoint, get, set_watchPoints,
    set_objects, emit, deref, bind; cbn.
  destruct (objects s !! p); [|exact I]. cbn.
  repeat split; auto.
  - intros q Hq. apply list_elem_of_filter in Hq. now destruct Hq.
  - eexists. reflexivity.
Qed.

#[local] Hint Resolve steady_reportFinished : steady.

Section Steady.

Variable os : OS.

Lemma steady_listen p : steady (WatchPoint_listen os p).
Proof. unfold WatchPoint_listen, ReadDirectoryChangesW. steady. Qed.

Lemma steady_close p : steady (WatchPoint_close os p).
Proof. unfold WatchPoint_close, CancelIo, CloseHandle. steady. Qed.

Lemma steady_handlePathChanged p info : steady (WatchPoint_handlePathChanged p info).
Proof. unfold WatchPoint_handlePathChanged, Server_reportEvent. steady. Qed.

Lemma steady_handle_records fuel p buffer current :
  steady (handle_records fuel p buffer current).
Proof.
  revert current. induction fuel as [|fuel IH]; intros current;
    cbn [handle_records]; [intros s; exact I|].
  destruct (buffer !! current) as [info|]; [|intros s; exact I].
  apply steady_bind; [apply steady_handlePathChanged|intros _].
  destruct (NextEntryOffset info =? 0); [apply steady_ret|apply IH].
Qed.

Lemma steady_handleEvent p errorCode bytesTransferred buffer :
  steady (WatchPoint_handleEvent os p errorCode bytesTransferred buffer).
Proof.
  pose proof steady_listen. pose proof steady_handle_records.
  unfold WatchPoint_handleEvent, Server_reportEvent. steady.
Qed.

Lemma steady_requestTermination : steady (Server_requestTermination os).
Proof. pose proof steady_close. unfold Server_requestTermination. steady. Qed.

Lemma steady_call routine : steady (call os routine).
Proof.
  destruct routine; cbn [call].
  - apply steady_listen.
  - apply steady_requestTermination.
  - apply steady_handleEvent.
Qed.

Lemma steady_queue q : steady (for_each q (call os)).
Proof. apply steady_for_each, steady_call. Qed.

End Steady.

(** ** The caller's side: queueing, waiting, joining *)

Lemma QueueUserAPC_alive routine s :
  watcherThread s = InSleepEx ->
  QueueUserAPC routine s =
  Ret true (add_trace [E_QueueUserAPC routine true]
              (upd_apcQueue (apcQueue s ++ [routine]) s)).
Proof.
  intros H. unfold QueueUserAPC, get, bind at 1. rewrite H. reflexivity.
Qed.

Lemma QueueUserAPC_dead routine s :
  watcherThread s <> InSleepEx ->
  QueueUserAPC routine s = Ret false (add_trace [E_QueueUserAPC routine false] s).
Proof.
  intros H. unfold QueueUserAPC, get, bind at 1.
  destruct (watcherThread s); try reflexivity. contradiction.
Qed.

Lemma SleepEx_return_dead (os : OS) s :
  watcherThread s <> InSleepEx -> SleepEx_return os s = Ret tt s.
Proof.
  intros H. unfold SleepEx_return, get, bind at 1.
  destruct (watcherThread s); try reflexivity. contradiction.
Qed.

Lemma requestTermination_sets_terminate (os : OS) s s' :
  Server_requestTermination os s = Ret tt s' -> terminate s' = true.
Proof.
  unfold Server_requestTermination, set_terminate, get, bind at 1 2.
  intros H.
  pose proof (steady_for_each (watchPoints (upd_terminate true s)) _
                (steady_close os) (upd_terminate true s)) as Hframe.
  rewrite H in Hframe. destruct Hframe as (_ & _ & Ht & _). now apply Ht.
Qed.

(** What a [join] can come to, once a termination request is in the queue
    or [terminate] is set. *)
Lemma join_outcome (os : OS) (arrivals : list APC) (s : Server) :
  watcherThread s = InSleepEx ->
  apcQueue s <> [] ->
  (forall s1, for_each (apcQueue s) (call os) (upd_apcQueue [] s) = Ret tt s1 ->
              terminate s1 = true) ->
  match join os arrivals s with
  | Ret _ s' => watcherThread s' = Exited /\ terminate s' = true /\ watchPoints s' = []
  | Blocked s' =>
      watcherThread s' = InSleepEx /\ terminate s' = true /\ watchPoints s' <> []
  | Undefined => True
  end.
Proof.
  revert s. induction arrivals as [|a rest IH]; intros s Hth Hq Hterm;
    cbn [join]; unfold bind at 1;
    (destruct (SleepEx_return_cases os s Hth) as [[Hq' _]|[_ Heq]];
     [contradiction|]); rewrite Heq; unfold bind at 1;
    pose proof (steady_queue os (apcQueue s) (upd_apcQueue [] s)) as Hframe;
    specialize (Hterm);
    destruct (for_each (apcQueue s) (call os) (upd_apcQueue [] s))
      as [[] s1| |] eqn:Hrun; try exact I; try contradiction;
    specialize (Hterm s1 eq_refl);
    destruct Hframe as (Hth1 & Hq1 & _ & _ & _);
    rewrite run_loop_spec; unfold get, bind at 1;
    destruct (run_condition s1) eqn:Hc.
  - cbn. repeat split; auto.
    intros Hw. assert (run_condition s1 = false) by (apply run_condition_false; auto).
    congruence.
  - apply run_condition_false in Hc. cbn. tauto.
  - cbn [watcherThread upd_watcherThread].
    unfold deliver, get, set_apcQueue, bind at 1 2. cbn [watcherThread upd_watcherThread].
    apply IH.
    + reflexivity.
    + cbn. rewrite Hq1. cbn. discriminate.
    + intros s2 Hrun2.
      pose proof (steady_queue os
                    (apcQueue (upd_apcQueue (apcQueue (upd_watcherThread InSleepEx s1) ++ [a])
                                 (upd_watcherThread InSleepEx s1)))
                    (upd_apcQueue [] (upd_apcQueue (apcQueue (upd_watcherThread InSleepEx s1) ++ [a])
                                 (upd_watcherThread InSleepEx s1)))) as Hf2.
      rewrite Hrun2 in Hf2. destruct Hf2 as (_ & _ & Ht & _). apply Ht. exact Hterm.
  - apply run_condition_false in Hc. cbn. tauto.
Qed.

(** C8, as stated, fails: [Server::close] takes no timeout and returns
    nothing.  When the completion of the cancelled read never arrives, the
    call does not return [false]: it does not return. *)
Lemma close_blocks_while_loop_runs :
  exists s',
    Server_close os_ok [] s_listening = Blocked s'
    /\ watcherThread s' = InSleepEx
    /\ terminate s' = true
    /\ watchPoints s' = [1%positive].
Proof. eexists. vm_compute. repeat split. Qed.

(** C8, amended. [close] has no timeout and no result.  It queues the
    termination APC on the run-loop thread and then joins the thread
    without any bound: it returns only once the run loop has drained and
    the thread has exited, and as long as the loop still runs it keeps
    waiting. *)
Theorem close_joins_without_timeout (os : OS) (arrivals : list APC) (s : Server) :
  watcherThread s = InSleepEx ->
  (exists s1,
     (log FINE "Requesting termination of server thread %p" ;;
      QueueUserAPC requestTerminationCallback) s = Ret true s1
     /\ apcQueue s1 = apcQueue s ++ [requestTerminationCallback]
     /\ Server_close os arrivals s = (join os arrivals ;; emit E_DeleteGlobalRef) s1)
  /\ match Server_close os arrivals s with
     | Ret _ s' =>
         watcherThread s' = Exited /\ terminate s' = true /\ watchPoints s' = []
     | Blocked s' =>
         watcherThread s' = InSleepEx /\ terminate s' = true /\ watchPoints s' <> []
     | Undefined => True
     end.
Proof.
  intros Hth.
  set (s0 := add_trace [E_log FINE "Requesting termination of server thread %p"] s).
  assert (Hth0 : watcherThread s0 = InSleepEx) by exact Hth.
  pose proof (QueueUserAPC_alive requestTerminationCallback s0 Hth0) as Hqueue.
  match type of Hqueue with _ = Ret true ?x => set (s1 := x) in * end.
  assert (Hclose : Server_close os arrivals s
                   = (join os arrivals ;; emit E_DeleteGlobalRef) s1).
  { unfold Server_close. unfold log at 1, emit at 1, bind at 1. fold s0.
    erewrite run_bind by exact Hqueue. reflexivity. }
  split.
  - exists s1. split; [|split; [reflexivity|exact Hclose]].
    unfold log, emit, bind at 1. fold s0. exact Hqueue.
  - rewrite Hclose. unfold bind.
    assert (Hjoin := join_outcome os arrivals s1).
    destruct (join os arrivals s1) as [[] s2|s2|]; try exact I.
    + cbn. apply Hjoin; [exact Hth|cbn; now destruct (apcQueue s)|].
      intros s3 Hrun. cbn [apcQueue s1 add_trace upd_apcQueue] in Hrun.
      rewrite for_each_app in Hrun. unfold bind in Hrun.
      destruct (for_each (apcQueue s0) (call os) _) as [[] s4| |]; try discriminate.
      cbn [for_each call] in Hrun. unfold bind, ret in Hrun.
      destruct (Server_requestTermination os s4) as [[] s5| |] eqn:Hreq; try discriminate.
      injection Hrun as <-. eapply requestTermination_sets_terminate; exact Hreq.
    + apply Hjoin; [exact Hth|cbn; now destruct (apcQueue s)|].
      intros s3 Hrun. cbn [apcQueue s1 add_trace upd_apcQueue] in Hrun.
      rewrite for_each_app in Hrun. unfold bind in Hrun.
      destruct (for_each (apcQueue s0) (call os) _) as [[] s4| |]; try discriminate.
      cbn [for_each call] in Hrun. unfold bind, ret in Hrun.
      destruct (Server_requestTermination os s4) as [[] s5| |] eqn:Hreq; try discriminate.
      injection Hrun as <-. eapply requestTermination_sets_terminate; exact Hreq.
Qed.

(** C8, amended, on the server that watches [root], when the completion
    of the cancelled read arrives during the [join]. *)
Lemma close_joins_without_timeout_witness :
  watcherThread s_listening = InSleepEx
  /\ match Server_close os_ok [abort_of_root] s_listening with
     | Ret _ s' =>
         watcherThread s' = Exited /\ terminate s' = true /\ watchPoints s' = []
     | Blocked s' =>
         watcherThread s' = InSleepEx /\ terminate s' = true /\ watchPoints s' <> []
     | Undefined => True
     end
  /\ Server_close os_ok [abort_of_root] s_listening = Ret tt s_closed.
Proof.
  assert (H : watcherThread s_listening = InSleepEx) by (vm_compute; reflexivity).
  split; [exact H|]. apply conj.
  - pose proof (close_joins_without_timeout os_ok [abort_of_root] s_listening H)
      as [_ Hclose].
    exact Hclose.
  - vm_compute. reflexivity.
Defined.

Lemma close_on_dead_thread (os : OS) (arrivals : list APC) (s : Server) :
  watcherThread s <> InSleepEx ->
  Server_close os arrivals s =
  Ret tt
    (add_trace
       [E_log FINE "Requesting termination of server thread %p";
        E_QueueUserAPC requestTerminationCallback false;
        E_log SEVERE "Couldn't send termination request to thread %p: %d";
        E_DeleteGlobalRef] s).
Proof.
  intros H. unfold Server_close. unfold log at 1, emit at 1, bind at 1.
  erewrite run_bind by (apply QueueUserAPC_dead; exact H).
  unfold log, emit, bind. now rewrite !add_trace_add_trace.
Qed.

Lemma new_WatchPoint_spec (name : wstring) (h : HANDLE) (s : Server) :
  let p := fresh (dom (objects s)) in
  new_WatchPoint name h s =
  Ret p
    (add_trace [E_new_WatchPoint p]
       (upd_objects
          (<[p := {| path := name; directoryHandle := h;
                     status := WATCH_UNINITIALIZED; listenerStarted := false |}]>
             (objects s)) s)).
Proof. reflexivity. Qed.

Lemma fresh_not_live (s : Server) : objects s !! fresh (dom (objects s)) = None.
Proof. apply not_elem_of_dom, is_fresh. Qed.



(** ** The handshake, thread by thread *)

Lemma handshake_inv_step success h h' :
  handshake_inv success h = true -> handshake_step h h' ->
  handshake_inv success h' = true.
Proof.
  destruct h as [c l m q b st]. intros Hinv [Hstep|Hstep];
    unfold caller_step, loop_step in Hstep; cbn in Hstep;
    destruct success, b, c, l, m as [[]|], q; cbn in *; try discriminate;
    injection Hstep as <-; cbn; try assumption;
    destruct st; cbn in *; try discriminate; reflexivity.
Qed.

Lemma handshake_inv_reaches success h :
  handshake_reaches (handshake_start success) h -> handshake_inv success h = true.
Proof.
  induction 1 as [|h1 h2 _ IH Hstep].
  - now destruct success.
  - eapply handshake_inv_step; eassumption.
Qed.

Lemma eqb_status_eq a b : eqb_status a b = true -> a = b.
Proof. destruct a, b; cbn; congruence. Qed.


(** No wake-up is lost: as long as the caller has not returned, one of the
    two threads can take a step. *)
Lemma handshake_no_deadlock success h :
  handshake_reaches (handshake_start success) h ->
  (exists ret, hs_caller h = C_returned ret /\ hs_loop h = L_finished)
  \/ (exists h', handshake_step h h').
Proof.
  intros Hreach. apply handshake_inv_reaches in Hreach.
  destruct h as [c l m q b st]. unfold handshake_inv in Hreach. cbn in *.
  apply andb_prop in Hreach as [_ Hreach].
  destruct c, l, m as [[]|], q; try discriminate;
    try (left; eexists; split; reflexivity);
    right;
    first [ eexists; apply step_caller; reflexivity
          | eexists; apply step_loop; reflexivity ].
Qed.

(** Every step executes a statement: the handshake ends. *)
Lemma handshake_step_decreases h h' :
  handshake_step h h' -> (statements_left h' < statements_left h)%nat.
Proof.
  destruct h as [c l m q b st]. intros [Hstep|Hstep];
    unfold caller_step, loop_step in Hstep; cbn in Hstep;
    destruct c, l, m as [[]|], q; cbn in *; try discriminate;
    injection Hstep as <-; cbn; lia.
Qed.

Lemma reaches_first h1 h2 h3 :
  handshake_step h1 h2 -> handshake_reaches h2 h3 -> handshake_reaches h1 h3.
Proof.
  intros Hstep Hreach. induction Hreach as [|h3 h4 _ IH Hlast].
  - eapply reaches_step; [apply reaches_refl|exact Hstep].
  - eapply reaches_step; [exact IH|exact Hlast].
Qed.

(** One interleaving, step by step: the caller sleeps before the APC is
    taken, and returns the status once the run-loop thread is done. *)
Example handshake_run :
  handshake_reaches (handshake_start true)
    {| hs_caller := C_returned WATCH_LISTENING; hs_loop := L_finished;
       hs_mutex := None; hs_queued := false; hs_success := true;
       hs_status := WATCH_LISTENING |}.
Proof.
  repeat (eapply reaches_first;
          [first [ apply step_caller; cbv; reflexivity
                 | apply step_loop; cbv; reflexivity ]|]).
  apply reaches_refl.
Qed.



(** *** What may interfere with a registration *)

Lemma bind_ret_l {A B} (a : A) (k : A -> M B) (s : Server) :
  (x <- ret a ;; k x) s = k a s.
Proof. reflexivity. Qed.

Lemma bind_ext {A B} (m1 m2 : M A) (k1 k2 : A -> M B) (s : Server) :
  m1 s = m2 s ->
  (forall a s', k1 a s' = k2 a s') ->
  (x <- m1 ;; k1 x) s = (x <- m2 ;; k2 x) s.
Proof.
  intros Hm Hk. unfold bind. rewrite Hm. destruct (m2 s); auto.
Qed.

Lemma no_interference_undisturbed (i : Interference) :
  no_interference i -> i = undisturbed.
Proof.
  destruct i as [b w n u]. intros (Hb & Hw & Hn & Hu). cbn in *. now subst.
Qed.

Lemma awaitListeningStarted_undisturbed (os : OS) (this : ptr) (s : Server) :
  WatchPoint_awaitListeningStarted_during os undisturbed this s =
  WatchPoint_awaitListeningStarted os this s.
Proof.
  unfold WatchPoint_awaitListeningStarted_during, WatchPoint_awaitListeningStarted.
  cbn [spurious_wakeup before_status undisturbed]. unfold run_loop_thread.
  cbn [for_each]. unfold bind.
  destruct (QueueUserAPC _ s) as [r s1| |]; try reflexivity.
  destruct (SleepEx_return os s1) as [[] s2| |]; try reflexivity.
  unfold deref. destruct (objects s2 !! this) as [w|] eqn:Hw; [|reflexivity].
  destruct (listenerStarted w); cbn; [now rewrite Hw|reflexivity].
Qed.

(** [Server_startWatching] is the registration that nothing interferes
    with. *)
Lemma Server_startWatching_undisturbed (os : OS) (name : wstring) (s : Server) :
  Server_startWatching_during os undisturbed name s = Server_startWatching os name s.
Proof.
  unfold Server_startWatching_during, Server_startWatching.
  cbn [before_call before_update undisturbed]. unfold run_loop_thread.
  cbn [for_each]. rewrite bind_ret_l.
  apply bind_ext; [reflexivity|]. intros h s1.
  destruct (h =? INVALID_HANDLE_VALUE); [reflexivity|].
  apply bind_ext; [reflexivity|]. intros p s2.
  apply bind_ext; [apply awaitListeningStarted_undisturbed|]. intros st s3.
  reflexivity.
Qed.

Lemma startWatching_each_undisturbed (os : OS) (paths : list wstring)
    (schedule : list Interference) (s : Server) :
  Forall no_interference schedule ->
  startWatching_each os paths schedule s = for_each paths (Server_startWatching os) s.
Proof.
  revert schedule s. induction paths as [|name paths IH]; intros schedule s Hquiet;
    [reflexivity|].
  cbn [startWatching_each for_each].
  assert (Hhd : hd undisturbed schedule = undisturbed).
  { destruct Hquiet as [|i rest Hi _]; [reflexivity|].
    cbn. now apply no_interference_undisturbed. }
  assert (Htl : Forall no_interference (tl schedule)).
  { destruct Hquiet; [constructor|assumption]. }
  rewrite Hhd. unfold bind. rewrite Server_startWatching_undisturbed.
  destruct (Server_startWatching os name s) as [[] s1| |]; try reflexivity.
  now apply IH.
Qed.

(** [Java_startWatching] is the entry point whose registrations nothing
    interferes with. *)
Lemma Java_startWatching_undisturbed (os : OS) (jvmStatus : Z) (paths : list wstring)
    (schedule : list Interference) (process : gmap ptr Server) :
  Forall no_interference schedule ->
  Java_startWatching_during os jvmStatus paths schedule process =
  Java_startWatching os jvmStatus paths process.
Proof.
  intros Hquiet. unfold Java_startWatching_during, Java_startWatching.
  destruct (negb (jvmStatus =? JNI_OK)); [reflexivity|].
  destruct (Z.of_nat (length paths) =? 0); [reflexivity|].
  unfold bind. destruct (Server_new os Server_initial) as [[] s0| |]; try reflexivity.
  now rewrite startWatching_each_undisturbed.
Qed.



(** The caller's [wait] ends spuriously, before the run-loop thread has
    taken the APC: the caller reads the status UNINITIALIZED and destroys
    the watch point, whose APC is still queued; when the run-loop thread
    takes it, [listen] runs on the deleted object. *)
Example spurious_wakeup_destroys_queued_watch_point :
  exists s',
    Server_startWatching_during os_ok woken_spuriously root s_started = Ret tt s'
    /\ watchPoints s' = []
    /\ objects s' !! 1%positive = None
    /\ last (trace s') =
       Some (E_delete_WatchPoint 1%positive
               {| path := root; directoryHandle := 105;
                  status := WATCH_UNINITIALIZED; listenerStarted := false |})
    /\ apcQueue s' = [startWatchCallback 1%positive]
    /\ SleepEx_return os_ok s' = Undefined.
Proof. eexists. vm_compute. repeat split. Qed.

(** A completion of the new read is handled after the caller has read
    the status LISTENING and before it updates [watchPoints]; the next
    read is refused, so the handler destroys the watch point, and the
    caller registers the pointer to the deleted object. *)
Example completion_before_update_registers_dangling_pointer :
  exists s',
    Server_startWatching_during os_one_read (completed_before_update 1%positive)
      root s_started = Ret tt s'
    /\ watchPoints s' = [1%positive]
    /\ objects s' !! 1%positive = None
    /\ reported (trace s') = [(FILE_EVENT_INVALIDATE, root)].
Proof. eexists. vm_compute. repeat split. Qed.

(** The same two interferences, statement by statement.  After a spurious
    wake-up the caller returns a status that [listen] has not
    published ... *)
Example spurious_wakeup_returns_unpublished :
  exists h1 h2 h3,
    handshake_reaches (handshake_start true) h1
    /\ wake_spuriously h1 = Some h2
    /\ handshake_reaches h2 h3
    /\ hs_caller h3 = C_returned WATCH_UNINITIALIZED
    /\ hs_loop h3 = L_SleepEx
    /\ hs_queued h3 = true.
Proof.
  eexists _, _, _. split.
  { do 3 (eapply reaches_first; [apply step_caller; cbv; reflexivity|]).
    apply reaches_refl. }
  split; [cbv; reflexivity|]. split.
  { do 3 (eapply reaches_first; [apply step_caller; cbv; reflexivity|]).
    apply reaches_refl. }
  cbv. repeat split.
Qed.

(** ... and when the completion of the new read is handled between the
    notification and the caller's read of [status], the caller returns
    the status that [handleEvent] has written without the mutex. *)
Example completion_before_return_changes_status :
  exists h1 h2 h3,
    handshake_reaches (handshake_start true) h1
    /\ hs_caller h1 = C_woken
    /\ hs_status h1 = WATCH_LISTENING
    /\ complete_read h1 = Some h2
    /\ handshake_reaches h2 h3
    /\ hs_caller h3 = C_returned WATCH_NOT_LISTENING.
Proof.
  eexists _, _, _. split.
  { do 3 (eapply reaches_first; [apply step_caller; cbv; reflexivity|]).
    do 6 (eapply reaches_first; [apply step_loop; cbv; reflexivity|]).
    apply reaches_refl. }
  split; [cbv; reflexivity|]. split; [cbv; reflexivity|].
  split; [cbv; reflexivity|]. split.
  { do 3 (eapply reaches_first; [apply step_caller; cbv; reflexivity|]).
    apply reaches_refl. }
  cbv. reflexivity.
Qed.

(** ** The JNI entry points *)

(** Whatever the paths, the entry points never mark a failure once the
    array is not empty: nothing in [Server::startWatching] or
    [Server::close] reports an error to the caller. *)
Lemma Java_startWatching_marks_no_failure (os : OS) (paths : list wstring)
    (process process' : gmap ptr Server) (object : option ptr) (result : option string) :
  paths <> [] ->
  Java_startWatching os JNI_OK paths process = Ret (object, result) process' ->
  result = None /\ object = Some (fresh (dom process)).
Proof.
  intros Hne. unfold Java_startWatching. cbn [Z.eqb JNI_OK negb].
  destruct paths as [|name paths]; [contradiction|].
  cbn [length]. destruct (Z.eqb_spec (Z.of_nat (S (length paths))) 0) as [|_]; [lia|].
  destruct ((Server_new os ;; for_each (name :: paths) (Server_startWatching os))
              Server_initial); intros H; inversion H; subst. split; reflexivity.
Qed.

Lemma Java_stopWatching_marks_no_failure (os : OS) (detailsObj : ptr)
    (arrivals : list APC) (process process' : gmap ptr Server) (result : option string) :
  Java_stopWatching os detailsObj arrivals process = Ret result process' ->
  result = None.
Proof.
  unfold Java_stopWatching. destruct (process !! detailsObj) as [s|]; [|discriminate].
  destruct (Server_close os arrivals s); intros H; inversion H. reflexivity.
Qed.

(** C10, as stated, fails: the test on [GetJavaVM] comes first, and when
    it fails the message is another one, empty array or not. *)
Lemma startWatching_no_paths_without_jvm :
  Java_startWatching os_ok (-1) [] ∅ =
  Ret (None, Some "Could not store JVM instance."%string) ∅
  /\ Java_startWatching os_ok (-1) [] ∅ <>
     Ret (None, Some "No paths given to watch."%string) ∅.
Proof. split; [reflexivity|discriminate]. Qed.

(** C10, amended. For every call of the entry point [startWatching] with
    an empty array of paths in which [GetJavaVM] succeeds, the result is
    marked as failed with the message "No paths given to watch." and
    [NULL] is returned; no server is constructed and no thread started. *)
Theorem startWatching_no_paths (os : OS) (process : gmap ptr Server) :
  Java_startWatching os JNI_OK [] process =
  Ret (None, Some "No paths given to watch."%string) process.
Proof. reflexivity. Qed.

(** C6 on the code: a second registration of a path that is being watched
    succeeds.  [Server::startWatching] looks nothing up in [watchPoints]:
    it opens the directory again and appends a second watch point for the
    same path; no failure is marked. *)
Theorem startWatching_twice_adds_second_watch_point :
  Server_startWatching os_ok root s_started = Ret tt s_listening
  /\ watchPoints s_listening = [1%positive]
  /\ Server_startWatching os_ok root s_listening = Ret tt s_twice
  /\ watchPoints s_twice = [1%positive; 2%positive]
  /\ path <$> objects s_twice !! 1%positive = Some root
  /\ path <$> objects s_twice !! 2%positive = Some root
  /\ exists process,
       Java_startWatching os_ok JNI_OK [root; root] ∅ = Ret (Some 1%positive, None) process
       /\ watchPoints <$> process !! 1%positive = Some [1%positive; 2%positive].
Proof.
  do 6 (apply conj; [vm_compute; reflexivity|]).
  eexists. apply conj; vm_compute; reflexivity.
Qed.

(** C7 on the code: a second [stopWatching] on the same watcher.  The
    first call closes the server and deletes it; the second one
    dereferences the address of the deleted server.  Neither
    [stopWatching] nor [Server::close] looks at any state that says the
    server is closed: on a server that were still there, [close] would
    run again, fail to queue the APC on the exited thread, log that and
    return. *)
Theorem stopWatching_twice_is_undefined :
  Java_startWatching os_ok JNI_OK [root] ∅ = Ret (Some 1%positive, None) process_watching
  /\ process_watching !! 1%positive = Some s_listening
  /\ Java_stopWatching os_ok 1%positive [abort_of_root] process_watching = Ret None ∅
  /\ Java_stopWatching os_ok 1%positive [] ∅ = Undefined
  /\ Server_close os_ok [abort_of_root] s_listening = Ret tt s_closed
  /\ Server_close os_ok [] s_closed =
     Ret tt
       (add_trace
          [E_log FINE "Requesting termination of server thread %p";
           E_QueueUserAPC requestTerminationCallback false;
           E_log SEVERE "Couldn't send termination request to thread %p: %d";
           E_DeleteGlobalRef] s_closed).
Proof.
  do 5 (apply conj; [vm_compute; reflexivity|]).
  vm_compute; reflexivity.
Qed.

(** ** Beyond the claims *)

(** *** A registration on a server at rest *)


Lemma filter_out_head (p : ptr) (l : list ptr) :
  p ∉ l -> filter (fun q => q <> p) (p :: l) = l.
Proof.
  intros Hp. rewrite filter_cons_False by (intros Hne; now apply Hne).
  induction l as [|q l IH]; [reflexivity|].
  rewrite filter_cons_True by (intros ->; apply Hp; left).
  f_equal. apply IH. intros Hin. apply Hp. now right.
Qed.

Lemma fresh_not_registered (s : Server) :
  registered_live s -> fresh (dom (objects s)) ∉ watchPoints s.
Proof.
  intros Hreg Hin. apply Hreg in Hin. rewrite fresh_not_live in Hin.
  now destruct Hin.
Qed.

(** What [Server::startWatching] does to a server at rest, case by case:
    the directory does not open; the read is accepted; it is refused. *)
Lemma startWatching_at_rest (os : OS) (name : wstring) (s : Server) :
  quiescent s ->
  let h := os_CreateFileW os (trace s) name in
  let p := fresh (dom (objects s)) in
  let t0 := trace s ++ [E_CreateFileW name h; E_new_WatchPoint p;
                        E_QueueUserAPC (startWatchCallback p) true] in
  let success := os_ReadDirectoryChangesW os t0 h in
  Server_startWatching os name s =
  Ret tt
    (if h =? INVALID_HANDLE_VALUE then
       add_trace [E_CreateFileW name h;
                  E_log SEVERE "Couldn't get file handle for '%ls': %d"] s
     else if success then
       {| terminate := terminate s;
          watchPoints := watchPoints s ++ [p];
          objects := <[p := {| path := name; directoryHandle := h;
                               status := WATCH_LISTENING;
                               listenerStarted := true |}]> (objects s);
          watcherThread := InSleepEx;
          apcQueue := [];
          trace := t0 ++ [E_ReadDirectoryChangesW h true] |}
     else
       {| terminate := terminate s;
          watchPoints := watchPoints s;
          objects := objects s;
          watcherThread := InSleepEx;
          apcQueue := [];
          trace := t0 ++
                   [E_ReadDirectoryChangesW h false;
                    E_log WARNING "Couldn't start watching %p for '%ls', error = %d";
                    E_log SEVERE "Couldn't start listening to '%ls': %d";
                    E_delete_WatchPoint p
                      {| path := name; directoryHandle := h;
                         status := WATCH_FAILED_TO_LISTEN;
                         listenerStarted := true |}] |}).
Proof.
  intros (Hth & Hq & Hterm) h p t0 success.
  unfold Server_startWatching.
  assert (Hcreate : CreateFileW os name s = Ret h (add_trace [E_CreateFileW name h] s))
    by reflexivity.
  rewrite (run_bind _ _ _ _ _ Hcreate).
  destruct (h =? INVALID_HANDLE_VALUE).
  { unfold log, emit. now rewrite add_trace_add_trace. }
  set (sa := add_trace [E_CreateFileW name h] s).
  rewrite (run_bind _ _ _ _ _ (new_WatchPoint_spec name h sa)).
  change (fresh (dom (objects sa))) with p.
  set (w0 := {| path := name; directoryHandle := h;
                status := WATCH_UNINITIALIZED; listenerStarted := false |}).
  set (sb := add_trace [E_new_WatchPoint p] _).
  assert (Hlive : objects sb !! p = Some w0) by (cbn; apply lookup_insert_eq).
  unfold WatchPoint_awaitListeningStarted.
  assert (Hthb : watcherThread sb = InSleepEx) by exact Hth.
  unfold bind at 1. unfold bind at 1.
  rewrite (QueueUserAPC_alive (startWatchCallback p) sb Hthb).
  set (sc := add_trace _ _).
  assert (Hthc : watcherThread sc = InSleepEx) by exact Hth.
  destruct (SleepEx_return_cases os sc Hthc) as [[Hqc _]|[_ Heq]].
  { cbn in Hqc. now destruct (apcQueue s). }
  unfold bind at 1. rewrite Heq.
  cbn [apcQueue sc add_trace upd_apcQueue sb upd_objects sa]. rewrite Hq.
  cbn [app for_each call]. unfold bind at 1 2.
  erewrite listen_live by (cbn; apply lookup_insert_eq). cbn zeta.
  cbn [trace add_trace upd_objects upd_apcQueue sc sb sa directoryHandle w0].
  replace (((trace s ++ [E_CreateFileW name h]) ++ [E_new_WatchPoint p]) ++
           [E_QueueUserAPC (startWatchCallback p) true]) with t0
    by (subst t0; now rewrite <- !app_assoc).
  fold success.
  unfold ret at 1. rewrite run_loop_spec.
  match goal with
  | |- context [run_condition ?x] =>
      assert (Hc : run_condition x = true)
        by (unfold run_condition; cbn; rewrite Hterm; reflexivity);
      rewrite Hc
  end.
  erewrite run_bind by (apply deref_live; cbn; apply lookup_insert_eq).
  cbn [listenerStarted notify_all status set_status].
  destruct success.
  - unfold ret, get, set_watchPoints, bind.
    unfold upd_watchPoints, upd_watcherThread, add_trace, upd_objects, upd_apcQueue; cbn.
    rewrite insert_insert_eq, Hterm. subst t0. rewrite <- !app_assoc. reflexivity.
  - unfold ret at 1. unfold log, emit, bind at 1.
    unfold delete_WatchPoint.
    erewrite run_bind by (apply deref_live; cbn; apply lookup_insert_eq).
    unfold emit, get, set_objects, bind.
    unfold upd_watchPoints, upd_watcherThread, add_trace, upd_objects, upd_apcQueue; cbn.
    rewrite insert_insert_eq, delete_insert_eq, delete_id by apply fresh_not_live.
    rewrite Hterm. subst t0. rewrite <- !app_assoc. reflexivity.
Qed.

Lemma watched_paths_insert_fresh (s : Server) (ps : list ptr) (p : ptr) (w : WatchPoint) :
  (forall q, q ∈ ps -> q <> p) ->
  omap (fun q => path <$> <[p := w]> (objects s) !! q) ps =
  omap (fun q => path <$> objects s !! q) ps.
Proof.
  induction ps as [|q ps IH]; intros Hne; [reflexivity|].
  cbn [omap list_omap]. rewrite lookup_insert_ne by (apply not_eq_sym, Hne; left).
  rewrite IH by (intros q' Hq'; apply Hne; now right). reflexivity.
Qed.

(** One registration on a server at rest: the server is at rest again,
    and at most the new path has joined the watched ones, at the end. *)
Lemma startWatching_step (os : OS) (name : wstring) (s : Server) :
  quiescent s ->
  registered_live s ->
  exists s' l,
    Server_startWatching os name s = Ret tt s'
    /\ quiescent s'
    /\ registered_live s'
    /\ watched_paths s' = watched_paths s ++ l
    /\ l `sublist_of` [name]
    /\ ((forall t n, os_CreateFileW os t n <> INVALID_HANDLE_VALUE) ->
        (forall t h, os_ReadDirectoryChangesW os t h = true) -> l = [name])
    /\ ((forall t n, os_CreateFileW os t n = INVALID_HANDLE_VALUE) ->
        l = [] /\ watchPoints s' = watchPoints s /\ objects s' = objects s)
    /\ reported (trace s') = reported (trace s)
    /\ handle_calls (trace s') = handle_calls (trace s)
    /\ (NoDup (watchPoints s) -> NoDup (watchPoints s'))
    /\ length (watchPoints s') = (length (watchPoints s) + length l)%nat.
Proof.
  intros Hrest Hreg.
  pose proof (startWatching_at_rest os name s Hrest) as Hrun. cbn zeta in Hrun.
  destruct Hrest as (Hth & Hq & Hterm).
  pose proof (fresh_not_registered s Hreg) as Hfresh.
  set (h := os_CreateFileW os (trace s) name) in *.
  set (p := fresh (dom (objects s))) in *.
  destruct (Z.eqb_spec h INVALID_HANDLE_VALUE) as [Hinv|Hvalid].
  - eexists _, []. split; [exact Hrun|].
    split; [repeat split; assumption|]. split; [exact Hreg|].
    split; [unfold watched_paths; cbn; now rewrite app_nil_r|].
    split; [apply sublist_nil_l|].
    split; [intros Hopen _; now destruct (Hopen (trace s) name)|].
    split; [intros _; repeat split|].
    cbn [trace add_trace watchPoints length].
    rewrite reported_app, handle_calls_app. cbn. rewrite !app_nil_r.
    repeat split; auto.
  - match type of Hrun with
    | context [if ?b then _ else _] => destruct b eqn:Hsuccess
    end.
    + eexists _, [name]. split; [exact Hrun|].
      split; [repeat split; assumption|].
      split.
      { intros q Hin. cbn [watchPoints objects] in *.
        apply elem_of_app in Hin as [Hin|Hin].
        - rewrite lookup_insert_ne; [now apply Hreg|].
          intros <-. exact (Hfresh Hin).
        - apply list_elem_of_singleton in Hin as ->.
          rewrite lookup_insert_eq. eauto. }
      split.
      { unfold watched_paths. cbn [watchPoints objects].
        rewrite omap_app. f_equal.
        - apply watched_paths_insert_fresh. intros q Hin ->. exact (Hfresh Hin).
        - cbn. now rewrite lookup_insert_eq. }
      split; [reflexivity|].
      split; [reflexivity|].
      split; [intros Hnone; destruct Hvalid; apply Hnone|].
      cbn [trace watchPoints]. rewrite !reported_app, !handle_calls_app. cbn.
      rewrite !app_nil_r. split; [reflexivity|]. split; [reflexivity|].
      split; [|now rewrite length_app].
      intros Hnd. apply NoDup_app. split; [exact Hnd|].
      split; [|apply NoDup_singleton].
      intros q Hin Hq'. apply list_elem_of_singleton in Hq' as ->. exact (Hfresh Hin).
    + eexists _, []. split; [exact Hrun|].
      split; [repeat split; assumption|]. split; [exact Hreg|].
      split; [unfold watched_paths; cbn; now rewrite app_nil_r|].
      split; [apply sublist_nil_l|].
      split; [intros _ Hread; rewrite Hread in Hsuccess; discriminate|].
      split; [intros _; repeat split|].
      cbn [trace watchPoints length]. rewrite !reported_app, !handle_calls_app. cbn.
      rewrite !app_nil_r. repeat split; auto.
Qed.

(** The loop of the JNI entry point over the paths. *)
Lemma register_all (os : OS) (paths : list wstring) (s : Server) :
  quiescent s ->
  registered_live s ->
  exists s' l,
    for_each paths (Server_startWatching os) s = Ret tt s'
    /\ quiescent s'
    /\ registered_live s'
    /\ watched_paths s' = watched_paths s ++ l
    /\ l `sublist_of` paths
    /\ ((forall t n, os_CreateFileW os t n <> INVALID_HANDLE_VALUE) ->
        (forall t h, os_ReadDirectoryChangesW os t h = true) -> l = paths)
    /\ ((forall t n, os_CreateFileW os t n = INVALID_HANDLE_VALUE) ->
        l = [] /\ watchPoints s' = watchPoints s /\ objects s' = objects s)
    /\ reported (trace s') = reported (trace s)
    /\ handle_calls (trace s') = handle_calls (trace s)
    /\ (NoDup (watchPoints s) -> NoDup (watchPoints s'))
    /\ length (watchPoints s') = (length (watchPoints s) + length l)%nat.
Proof.
  revert s. induction paths as [|name paths IH]; intros s Hrest Hreg.
  - exists s, []. cbn [for_each length]. rewrite app_nil_r.
    split; [reflexivity|]. split; [exact Hrest|]. split; [exact Hreg|].
    split; [reflexivity|]. split; [constructor|].
    split; [reflexivity|]. split; [intros _; repeat split|].
    split; [reflexivity|]. split; [reflexivity|]. split; [auto|lia].
  - destruct (startWatching_step os name s Hrest Hreg)
      as (s1 & l1 & Hrun1 & Hrest1 & Hreg1 & Hw1 & Hsub1 & Hall1 & Hnone1 & Hrep1
          & Hcalls1 & Hnd1 & Hlen1).
    destruct (IH s1 Hrest1 Hreg1)
      as (s2 & l2 & Hrun2 & Hrest2 & Hreg2 & Hw2 & Hsub2 & Hall2 & Hnone2 & Hrep2
          & Hcalls2 & Hnd2 & Hlen2).
    exists s2, (l1 ++ l2). cbn [for_each].
    rewrite (run_bind _ _ _ _ _ Hrun1).
    split; [exact Hrun2|]. split; [exact Hrest2|]. split; [exact Hreg2|].
    split; [now rewrite Hw2, Hw1, app_assoc|].
    split; [change (name :: paths) with ([name] ++ paths); now apply sublist_app|].
    split.
    { intros Hopen Hread. now rewrite (Hall1 Hopen Hread), (Hall2 Hopen Hread). }
    split.
    { intros Hnone. destruct (Hnone1 Hnone) as (-> & Hwp1 & Ho1).
      destruct (Hnone2 Hnone) as (-> & Hwp2 & Ho2).
      repeat split; congruence. }
    split; [congruence|]. split; [congruence|]. split; [auto|].
    rewrite length_app. lia.
Qed.

(** *** Completions *)

Lemma handle_calls_record_effects w info : handle_calls (record_effects w info) = [].
Proof.
  unfold record_effects. destruct (spec_ChangeType (Action info)); reflexivity.
Qed.

Lemma reads_flat_map_record_effects w infos :
  reads (flat_map (record_effects w) infos) = [].
Proof.
  induction infos as [|info infos IH]; cbn [flat_map]; [reflexivity|].
  now rewrite reads_app, reads_record_effects, IH.
Qed.

Lemma handle_calls_flat_map_record_effects w infos :
  handle_calls (flat_map (record_effects w) infos) = [].
Proof.
  induction infos as [|info infos IH]; cbn [flat_map]; [reflexivity|].
  now rewrite handle_calls_app, handle_calls_record_effects, IH.
Qed.

(** The events that a completion other than the end of the watch hands to
    the sink: the invalidation of the root when nothing was transferred,
    one event per record otherwise. *)
Lemma reported_events w bytesTransferred infos :
  reported (if bytesTransferred =? 0
            then [E_pathChanged FILE_EVENT_INVALIDATE (path w)]
            else flat_map (record_effects w) infos) =
  if bytesTransferred =? 0 then [(FILE_EVENT_INVALIDATE, path w)]
  else map (fun info => (spec_ChangeType (Action info), changedPath_of (path w) info))
           infos.
Proof.
  destruct (bytesTransferred =? 0); [reflexivity|apply reported_flat_map_record_effects].
Qed.

Lemma reads_events w bytesTransferred infos :
  reads (if bytesTransferred =? 0
         then [E_pathChanged FILE_EVENT_INVALIDATE (path w)]
         else flat_map (record_effects w) infos) = [].
Proof.
  destruct (bytesTransferred =? 0); [reflexivity|apply reads_flat_map_record_effects].
Qed.

Lemma handle_calls_events w bytesTransferred infos :
  handle_calls (if bytesTransferred =? 0
                then [E_pathChanged FILE_EVENT_INVALIDATE (path w)]
                else flat_map (record_effects w) infos) = [].
Proof.
  destruct (bytesTransferred =? 0);
    [reflexivity|apply handle_calls_flat_map_record_effects].
Qed.

(** X1. A completion that brings data: the events of all the records reach
    the sink first, in the order of the chain, and only then the read is
    issued again, once, on the handle of the watch point; no handle is
    cancelled or closed, and the thread, its queue and [terminate] stay
    as they are. *)
Theorem handleEvent_records_then_one_read (os : OS) (this : ptr) (w : WatchPoint)
    (errorCode bytesTransferred : DWORD) (buffer : Buffer)
    (infos : list FILE_NOTIFY_INFORMATION) (s : Server) :
  objects s !! this = Some w ->
  errorCode <> ERROR_OPERATION_ABORTED ->
  bytesTransferred <> 0 ->
  records buffer = Some infos ->
  exists (s' : Server) (success : bool) (rest : Trace),
    WatchPoint_handleEvent os this errorCode bytesTransferred buffer s = Ret tt s'
    /\ trace s' =
       trace s ++ flat_map (record_effects w) infos ++
       E_ReadDirectoryChangesW (directoryHandle w) success :: rest
    /\ reported (flat_map (record_effects w) infos) =
       map (fun info => (spec_ChangeType (Action info), changedPath_of (path w) info))
           infos
    /\ reads (flat_map (record_effects w) infos) = []
    /\ reported rest = []
    /\ reads rest = []
    /\ handle_calls (trace s') = handle_calls (trace s)
    /\ terminate s' = terminate s
    /\ watcherThread s' = watcherThread s
    /\ apcQueue s' = apcQueue s.
Proof.
  intros H Hne Hbytes Hrec.
  pose proof (handleEvent_completed os this w errorCode bytesTransferred buffer infos s
                H Hne (fun _ => Hrec)) as Hrun.
  cbn zeta in Hrun.
  destruct (Z.eqb_spec bytesTransferred 0) as [|_]; [contradiction|].
  destruct (os_ReadDirectoryChangesW os _ _) eqn:Hread.
  - eexists _, true, []. split; [exact Hrun|]. cbn [trace terminate watcherThread apcQueue].
    split; [reflexivity|].
    split; [apply reported_flat_map_record_effects|].
    split; [apply reads_flat_map_record_effects|].
    split; [reflexivity|]. split; [reflexivity|].
    split; [|repeat split].
    rewrite !handle_calls_app, handle_calls_flat_map_record_effects. cbn.
    now rewrite app_nil_r.
  - eexists _, false, _. split; [exact Hrun|]. cbn [trace terminate watcherThread apcQueue].
    split; [reflexivity|].
    split; [apply reported_flat_map_record_effects|].
    split; [apply reads_flat_map_record_effects|].
    split; [reflexivity|]. split; [reflexivity|].
    split; [|repeat split].
    rewrite !handle_calls_app, handle_calls_flat_map_record_effects. cbn.
    now rewrite app_nil_r.
Qed.

(** X1 on the completion with the two records of [two_records], on the server
    that watches [root]. *)
Lemma handleEvent_records_then_one_read_witness :
  objects s_listening !! 1%positive = Some wp_root
  /\ 0 <> ERROR_OPERATION_ABORTED
  /\ 46 <> 0
  /\ records two_records =
     Some [record_of 24 FILE_ACTION_ADDED (L "a.txt");
           record_of 0 FILE_ACTION_MODIFIED (L "a.txt")]
  /\ exists (s' : Server) (success : bool) (rest : Trace),
       WatchPoint_handleEvent os_ok 1%positive 0 46 two_records s_listening = Ret tt s'
       /\ trace s' =
          trace s_listening ++
          flat_map (record_effects wp_root)
            [record_of 24 FILE_ACTION_ADDED (L "a.txt");
             record_of 0 FILE_ACTION_MODIFIED (L "a.txt")] ++
          E_ReadDirectoryChangesW (directoryHandle wp_root) success :: rest.
Proof.
  assert (H : objects s_listening !! 1%positive = Some wp_root)
    by (vm_compute; reflexivity).
  assert (Hne : 0 <> ERROR_OPERATION_ABORTED) by (unfold ERROR_OPERATION_ABORTED; lia).
  assert (Hbytes : 46 <> 0) by lia.
  assert (Hrec : records two_records =
                 Some [record_of 24 FILE_ACTION_ADDED (L "a.txt");
                       record_of 0 FILE_ACTION_MODIFIED (L "a.txt")])
    by (vm_compute; reflexivity).
  split; [exact H|]. split; [exact Hne|]. split; [exact Hbytes|]. split; [exact Hrec|].
  destruct (handleEvent_records_then_one_read os_ok 1%positive wp_root 0 46 two_records
              _ s_listening H Hne Hbytes Hrec)
    as (s' & success & rest & Hrun & Htrace & _).
  exists s', success, rest. split; [exact Hrun|exact Htrace].
Defined.

(** X2. A completion after which the read is refused: the events of the
    completion are still delivered; then the watch point leaves
    [watchPoints] and is destroyed with the status FAILED_TO_LISTEN.  The
    sink is told nothing of it, and the handle of the directory is neither
    cancelled nor closed. *)
Theorem handleEvent_refused_read_drops_watch_point (os : OS) (this : ptr)
    (w : WatchPoint) (errorCode bytesTransferred : DWORD) (buffer : Buffer)
    (infos : list FILE_NOTIFY_INFORMATION) (s : Server) :
  objects s !! this = Some w ->
  errorCode <> ERROR_OPERATION_ABORTED ->
  (bytesTransferred <> 0 -> records buffer = Some infos) ->
  os_ReadDirectoryChangesW os
    (trace s ++ if bytesTransferred =? 0
                then [E_pathChanged FILE_EVENT_INVALIDATE (path w)]
                else flat_map (record_effects w) infos)
    (directoryHandle w) = false ->
  exists (s' : Server) (w' : WatchPoint),
    WatchPoint_handleEvent os this errorCode bytesTransferred buffer s = Ret tt s'
    /\ watchPoints s' = filter (fun q => q <> this) (watchPoints s)
    /\ objects s' = delete this (objects s)
    /\ last (trace s') = Some (E_delete_WatchPoint this w')
    /\ status w' = WATCH_FAILED_TO_LISTEN
    /\ reported (trace s') =
       reported (trace s) ++
       (if bytesTransferred =? 0 then [(FILE_EVENT_INVALIDATE, path w)]
        else map (fun info => (spec_ChangeType (Action info),
                               changedPath_of (path w) info)) infos)
    /\ reads (trace s') = reads (trace s) ++ [directoryHandle w]
    /\ handle_calls (trace s') = handle_calls (trace s).
Proof.
  intros H Hne Hrec Hread.
  pose proof (handleEvent_completed os this w errorCode bytesTransferred buffer infos s
                H Hne Hrec) as Hrun.
  cbn zeta in Hrun. rewrite Hread in Hrun.
  eexists _, _. split; [exact Hrun|]. cbn [trace watchPoints objects].
  split; [reflexivity|]. split; [reflexivity|].
  split; [rewrite app_assoc, last_app; reflexivity|].
  split; [reflexivity|].
  rewrite !reported_app, !reads_app, !handle_calls_app.
  rewrite reported_events, reads_events, handle_calls_events. cbn.
  rewrite !app_nil_r. repeat split.
Qed.

(** X2 on the completion with the two records of [two_records] when the
    operating system refuses the next read. *)
Lemma handleEvent_refused_read_drops_watch_point_witness :
  objects s_listening !! 1%positive = Some wp_root
  /\ 0 <> ERROR_OPERATION_ABORTED
  /\ exists (s' : Server) (w' : WatchPoint),
       WatchPoint_handleEvent os_no_read 1%positive 0 46 two_records s_listening
       = Ret tt s'
       /\ watchPoints s' = filter (fun q => q <> 1%positive) (watchPoints s_listening)
       /\ objects s' = delete 1%positive (objects s_listening)
       /\ last (trace s') = Some (E_delete_WatchPoint 1%positive w')
       /\ status w' = WATCH_FAILED_TO_LISTEN.
Proof.
  assert (H : objects s_listening !! 1%positive = Some wp_root)
    by (vm_compute; reflexivity).
  assert (Hne : 0 <> ERROR_OPERATION_ABORTED) by (unfold ERROR_OPERATION_ABORTED; lia).
  assert (Hrec : 46 <> 0 -> records two_records =
                 Some [record_of 24 FILE_ACTION_ADDED (L "a.txt");
                       record_of 0 FILE_ACTION_MODIFIED (L "a.txt")])
    by (intros _; vm_compute; reflexivity).
  split; [exact H|]. split; [exact Hne|].
  destruct (handleEvent_refused_read_drops_watch_point os_no_read 1%positive wp_root
              0 46 two_records _ s_listening H Hne Hrec eq_refl)
    as (s' & w' & Hrun & Hw & Ho & Hlast & Hst & _).
  exists s', w'. repeat split; assumption.
Defined.

(** *** The name of a record *)

Lemma take_c_str (k : nat) (mem : list wchar_t) :
  take k (c_str mem) = c_str (take k mem).
Proof.
  revert k. induction mem as [|c mem IH]; intros [|k]; cbn [c_str take]; try reflexivity.
  destruct (c =? 0); [reflexivity|]. cbn [take]. now rewrite IH.
Qed.

Lemma c_str_prefix (mem : list wchar_t) : c_str mem `prefix_of` mem.
Proof.
  induction mem as [|c mem IH]; cbn [c_str]; [reflexivity|].
  destruct (c =? 0); [apply prefix_nil|now apply prefix_cons].
Qed.

Lemma c_str_Forall (mem : list wchar_t) : Forall (fun c => c <> 0) (c_str mem).
Proof.
  induction mem as [|c mem IH]; cbn [c_str]; [constructor|].
  destruct (Z.eqb_spec c 0); [constructor|now constructor].
Qed.

(** X3. The name that [handlePathChanged] hands on is the name of the record
    cut at its first NUL: at most [FileNameLength / sizeof(wchar_t)]
    characters (an odd length loses its last byte), a prefix of the memory
    at [FileName], without any NUL.  When nothing is left of the name the
    path is empty; otherwise it is the watched root, a backslash and that
    name. *)
Theorem changedPath_of_name_cut_at_NUL (path : wstring)
    (info : FILE_NOTIFY_INFORMATION) :
  exists name : wstring,
    name = c_str (record_name info)
    /\ changedPath_of path info = (if decide (name = []) then [] else join_path path name)
    /\ name `prefix_of` FileName info
    /\ (length name <= Z.to_nat (FileNameLength info / sizeof_wchar_t))%nat
    /\ Forall (fun c => c <> 0) name
    /\ (name <> [] -> isAbsolute path = true ->
        isAbsolute (changedPath_of path info) = true).
Proof.
  exists (c_str (record_name info)). split; [reflexivity|].
  assert (Hpath : changedPath_of path info =
                  if decide (c_str (record_name info) = []) then []
                  else join_path path (c_str (record_name info))).
  { unfold changedPath_of, substr, record_name. rewrite drop_0, take_c_str.
    destruct (c_str _); [reflexivity|]. now rewrite decide_False. }
  split; [exact Hpath|].
  split.
  { etransitivity; [apply c_str_prefix|]. apply prefix_take. }
  split.
  { etransitivity; [apply prefix_length, c_str_prefix|].
    unfold record_name. rewrite length_take. lia. }
  split; [apply c_str_Forall|].
  intros Hne Habs. rewrite Hpath, decide_False by exact Hne.
  now apply isAbsolute_app.
Qed.

(** *** Registrations *)





(** X6. The registrations of the JNI entry point, one path after the other,
    on a server at rest, when nothing interferes with them (no wait ends
    spuriously and the run-loop thread handles no completion while the
    loop runs): the loop returns, the server is at rest again, and the
    paths that are watched in the end are those that were watched before
    followed by some of the new ones, in the order of the array; no
    pointer is registered twice, nothing is reported and no handle is
    closed. *)
Theorem registrations_in_order (os : OS) (paths : list wstring)
    (schedule : list Interference) (s : Server) :
  Forall no_interference schedule ->
  quiescent s ->
  well_formed s ->
  exists (s' : Server) (l : list wstring),
    startWatching_each os paths schedule s = Ret tt s'
    /\ watched_paths s' = watched_paths s ++ l
    /\ l `sublist_of` paths
    /\ length (watchPoints s') = (length (watchPoints s) + length l)%nat
    /\ quiescent s'
    /\ well_formed s'
    /\ reported (trace s') = reported (trace s)
    /\ handle_calls (trace s') = handle_calls (trace s).
Proof.
  intros Hquiet Hrest [Hnd Hreg].
  rewrite (startWatching_each_undisturbed os paths schedule s Hquiet).
  destruct (register_all os paths s Hrest Hreg)
    as (s' & l & Hrun & Hrest' & Hreg' & Hw & Hsub & _ & _ & Hrep & Hcalls & Hnd' & Hlen).
  exists s', l. split; [exact Hrun|]. split; [exact Hw|]. split; [exact Hsub|].
  split; [exact Hlen|]. split; [exact Hrest'|].
  split; [split; [exact (Hnd' Hnd)|exact Hreg']|]. split; assumption.
Qed.

Lemma no_interference_twice : Forall no_interference [undisturbed; undisturbed].
Proof. repeat constructor. Defined.

(** X6 on two undisturbed registrations of [root] with a server that has
    just started. *)
Lemma registrations_in_order_witness :
  Forall no_interference [undisturbed; undisturbed]
  /\ quiescent s_started
  /\ well_formed s_started
  /\ exists (s' : Server) (l : list wstring),
       startWatching_each os_ok [root; root] [undisturbed; undisturbed] s_started
       = Ret tt s'
       /\ watched_paths s' = watched_paths s_started ++ l
       /\ l `sublist_of` [root; root]
       /\ length (watchPoints s') = (length (watchPoints s_started) + length l)%nat
       /\ quiescent s'
       /\ well_formed s'
       /\ reported (trace s') = reported (trace s_started)
       /\ handle_calls (trace s') = handle_calls (trace s_started).
Proof.
  assert (Hrest : quiescent s_started) by (vm_compute; repeat split).
  assert (Hwf : well_formed s_started).
  { split; [vm_compute; constructor|]. intros q Hq. vm_compute in Hq. inversion Hq. }
  split; [exact no_interference_twice|]. split; [exact Hrest|]. split; [exact Hwf|].
  exact (registrations_in_order os_ok [root; root] [undisturbed; undisturbed] s_started
           no_interference_twice Hrest Hwf).
Defined.

(** A change in the first directory while the second is registered: the
    run-loop thread reports it before the loop has returned. *)
Example completion_between_registrations_is_reported :
  exists s',
    startWatching_each os_ok [root; root]
      [undisturbed;
       {| before_call := [[handleEventCallback 0 46 1%positive two_records]];
          spurious_wakeup := false; before_status := []; before_update := [] |}]
      s_started = Ret tt s'
    /\ reported (trace s') =
       [(FILE_EVENT_CREATED, L "C:\root\a.txt"); (FILE_EVENT_MODIFIED, L "C:\root\a.txt")]
    /\ watchPoints s' = [1%positive; 2%positive].
Proof. eexists. vm_compute. repeat split. Qed.

Lemma os_ok_opens (t : Trace) (n : wstring) :
  os_CreateFileW os_ok t n <> INVALID_HANDLE_VALUE.
Proof. unfold INVALID_HANDLE_VALUE. cbn. lia. Defined.

(** *** The constructor and the entry point [startWatching] *)

(** [Server::Server] on a server whose [terminate] is not set: the thread
    attaches and waits in its loop, or it does not attach and ends, and
    then nothing notifies [watcherThreadStarted]. *)
Lemma Server_new_spec (os : OS) (s : Server) :
  terminate s = false ->
  let t := trace s ++ [E_NewGlobalRef; E_thread_start] in
  Server_new os s =
  if os_attach_jni os t then
    Ret tt
      {| terminate := terminate s; watchPoints := watchPoints s;
         objects := objects s; watcherThread := InSleepEx;
         apcQueue := apcQueue s;
         trace := t ++ [E_attach_jni true;
                        E_log INFO "Server thread %d with handle %p running";
                        E_SetThreadPriority] |}
  else
    Blocked
      {| terminate := terminate s; watchPoints := watchPoints s;
         objects := objects s; watcherThread := Exited;
         apcQueue := apcQueue s;
         trace := t ++ [E_attach_jni false] |}.
Proof.
  intros Hterm t. unfold Server_new.
  unfold emit at 1 2, bind at 1 2. rewrite add_trace_add_trace. cbn [app].
  unfold Server_run. unfold get at 1, bind at 1 2. cbn [trace add_trace]. fold t.
  unfold emit at 1. destruct (os_attach_jni os t).
  - unfold log, emit at 1, bind at 1 2. rewrite run_loop_spec.
    match goal with
    | |- context [run_condition ?x] =>
        assert (Hc : run_condition x = true)
          by (unfold run_condition; cbn; rewrite Hterm; reflexivity);
        rewrite Hc
    end.
    unfold get, emit, bind. cbn [watcherThread upd_watcherThread].
    unfold add_trace, upd_watcherThread; cbn. subst t.
    rewrite <- !app_assoc. reflexivity.
  - unfold set_watcherThread, get, block, bind. cbn [watcherThread upd_watcherThread].
    unfold add_trace, upd_watcherThread; cbn. subst t.
    rewrite <- !app_assoc. reflexivity.
Qed.

Lemma Java_startWatching_run (os : OS) (paths : list wstring)
    (process : gmap ptr Server) :
  paths <> [] ->
  Java_startWatching os JNI_OK paths process =
  match (Server_new os ;; for_each paths (Server_startWatching os)) Server_initial with
  | Ret _ s => Ret (Some (fresh (dom process)), None) (<[fresh (dom process) := s]> process)
  | Blocked s => Blocked (<[fresh (dom process) := s]> process)
  | Undefined => Undefined
  end.
Proof.
  intros Hne. unfold Java_startWatching. cbn [Z.eqb JNI_OK negb].
  destruct paths as [|name paths]; [contradiction|].
  cbn [length]. destruct (Z.eqb_spec (Z.of_nat (S (length paths))) 0) as [|_]; [lia|].
  reflexivity.
Qed.

(** The server that the constructor leaves when the thread attached. *)
Lemma Server_new_attached (os : OS) :
  os_attach_jni os [E_NewGlobalRef; E_thread_start] = true ->
  exists s0,
    Server_new os Server_initial = Ret tt s0
    /\ quiescent s0
    /\ watchPoints s0 = []
    /\ objects s0 = ∅
    /\ reported (trace s0) = []
    /\ handle_calls (trace s0) = [].
Proof.
  intros Hattach.
  pose proof (Server_new_spec os Server_initial eq_refl) as Hnew.
  cbn zeta in Hnew. cbn [trace Server_initial app] in Hnew. rewrite Hattach in Hnew.
  eexists. split; [exact Hnew|]. repeat split.
Qed.

(** X7. When the thread of the server cannot attach to the JVM, the
    constructor never returns, and neither does the entry point: the
    thread has ended without notifying [watcherThreadStarted], and no
    directory is opened. *)
Theorem Java_startWatching_without_attach_blocks (os : OS) (paths : list wstring)
    (process : gmap ptr Server) :
  paths <> [] ->
  os_attach_jni os [E_NewGlobalRef; E_thread_start] = false ->
  exists s : Server,
    Java_startWatching os JNI_OK paths process =
    Blocked (<[fresh (dom process) := s]> process)
    /\ watcherThread s = Exited
    /\ trace s = [E_NewGlobalRef; E_thread_start; E_attach_jni false]
    /\ watchPoints s = [].
Proof.
  intros Hne Hattach. rewrite Java_startWatching_run by exact Hne.
  pose proof (Server_new_spec os Server_initial eq_refl) as Hnew.
  cbn zeta in Hnew. cbn [trace Server_initial app] in Hnew. rewrite Hattach in Hnew.
  rewrite (run_bind_Blocked _ _ _ _ Hnew).
  eexists. split; [reflexivity|]. repeat split.
Qed.

(** X7 on the entry point with one path on an operating system that attaches
    no thread. *)
Lemma Java_startWatching_without_attach_blocks_witness :
  [root] <> []
  /\ os_attach_jni os_no_jvm [E_NewGlobalRef; E_thread_start] = false
  /\ exists s : Server,
       Java_startWatching os_no_jvm JNI_OK [root] ∅ =
       Blocked (<[fresh (dom (∅ : gmap ptr Server)) := s]> ∅)
       /\ watcherThread s = Exited
       /\ trace s = [E_NewGlobalRef; E_thread_start; E_attach_jni false]
       /\ watchPoints s = [].
Proof.
  assert (Hne : [root] <> []) by discriminate.
  split; [exact Hne|]. split; [reflexivity|].
  exact (Java_startWatching_without_attach_blocks os_no_jvm [root] ∅ Hne eq_refl).
Defined.

(** X8. When the thread attaches, every directory opens, every read is
    accepted and nothing interferes with the registrations (no wait ends
    spuriously and the run-loop thread handles no completion before the
    entry point returns), the entry point returns a watcher at a new
    address and marks no failure; the server of the watcher is at rest
    and watches the paths of the array, in their order, each at an
    address of its own, and nothing has been reported. *)
Theorem Java_startWatching_watches_all (os : OS) (paths : list wstring)
    (schedule : list Interference) (process : gmap ptr Server) :
  paths <> [] ->
  Forall no_interference schedule ->
  os_attach_jni os [E_NewGlobalRef; E_thread_start] = true ->
  (forall t n, os_CreateFileW os t n <> INVALID_HANDLE_VALUE) ->
  (forall t h, os_ReadDirectoryChangesW os t h = true) ->
  exists s : Server,
    Java_startWatching_during os JNI_OK paths schedule process =
    Ret (Some (fresh (dom process)), None) (<[fresh (dom process) := s]> process)
    /\ process !! fresh (dom process) = None
    /\ watched_paths s = paths
    /\ length (watchPoints s) = length paths
    /\ well_formed s
    /\ quiescent s
    /\ reported (trace s) = [].
Proof.
  intros Hne Hquiet Hattach Hopen Hread.
  rewrite (Java_startWatching_undisturbed os JNI_OK paths schedule process Hquiet).
  rewrite Java_startWatching_run by exact Hne.
  destruct (Server_new_attached os Hattach)
    as (s0 & Hnew & Hrest0 & Hw0 & Ho0 & Hrep0 & _).
  assert (Hreg0 : registered_live s0).
  { intros q Hq. rewrite Hw0 in Hq. inversion Hq. }
  destruct (register_all os paths s0 Hrest0 Hreg0)
    as (s & l & Hrun & Hrest & Hreg & Hw & _ & Hall & _ & Hrep & _ & Hnd & Hlen).
  rewrite (Hall Hopen Hread) in Hw, Hlen.
  rewrite (run_bind _ _ _ _ _ Hnew), Hrun.
  exists s. split; [reflexivity|].
  split; [apply not_elem_of_dom, is_fresh|].
  split; [rewrite Hw; unfold watched_paths; now rewrite Hw0|].
  split; [rewrite Hlen, Hw0; reflexivity|].
  split; [split; [apply Hnd; rewrite Hw0; constructor|exact Hreg]|].
  split; [exact Hrest|congruence].
Qed.

(** X8 on the entry point with [root], twice, undisturbed, on an
    operating system that accepts everything. *)
Lemma Java_startWatching_watches_all_witness :
  [root; root] <> []
  /\ Forall no_interference [undisturbed; undisturbed]
  /\ os_attach_jni os_ok [E_NewGlobalRef; E_thread_start] = true
  /\ (forall t n, os_CreateFileW os_ok t n <> INVALID_HANDLE_VALUE)
  /\ (forall t h, os_ReadDirectoryChangesW os_ok t h = true)
  /\ exists s : Server,
       Java_startWatching_during os_ok JNI_OK [root; root] [undisturbed; undisturbed] ∅ =
       Ret (Some (fresh (dom (∅ : gmap ptr Server))), None)
           (<[fresh (dom (∅ : gmap ptr Server)) := s]> ∅)
       /\ (∅ : gmap ptr Server) !! fresh (dom (∅ : gmap ptr Server)) = None
       /\ watched_paths s = [root; root]
       /\ length (watchPoints s) = 2%nat
       /\ well_formed s
       /\ quiescent s
       /\ reported (trace s) = [].
Proof.
  assert (Hne : [root; root] <> []) by discriminate.
  split; [exact Hne|]. split; [exact no_interference_twice|]. split; [reflexivity|].
  split; [exact os_ok_opens|]. split; [reflexivity|].
  exact (Java_startWatching_watches_all os_ok [root; root] [undisturbed; undisturbed] ∅
           Hne no_interference_twice eq_refl os_ok_opens (fun _ _ => eq_refl)).
Defined.

(** X9. When the thread attaches and no directory opens, the entry point
    still returns a watcher and marks no failure: the failures of
    [Server::startWatching] are logged and go no further.  The server of
    that watcher is at rest and watches nothing. *)
Theorem Java_startWatching_nothing_opens (os : OS) (paths : list wstring)
    (process : gmap ptr Server) :
  paths <> [] ->
  os_attach_jni os [E_NewGlobalRef; E_thread_start] = true ->
  (forall t n, os_CreateFileW os t n = INVALID_HANDLE_VALUE) ->
  exists s : Server,
    Java_startWatching os JNI_OK paths process =
    Ret (Some (fresh (dom process)), None) (<[fresh (dom process) := s]> process)
    /\ watchPoints s = []
    /\ objects s = ∅
    /\ quiescent s
    /\ reported (trace s) = []
    /\ handle_calls (trace s) = [].
Proof.
  intros Hne Hattach Hnone. rewrite Java_startWatching_run by exact Hne.
  destruct (Server_new_attached os Hattach)
    as (s0 & Hnew & Hrest0 & Hw0 & Ho0 & Hrep0 & Hcalls0).
  assert (Hreg0 : registered_live s0).
  { intros q Hq. rewrite Hw0 in Hq. inversion Hq. }
  destruct (register_all os paths s0 Hrest0 Hreg0)
    as (s & l & Hrun & Hrest & _ & _ & _ & _ & Hno & Hrep & Hcalls & _ & _).
  destruct (Hno Hnone) as (_ & Hw & Ho).
  rewrite (run_bind _ _ _ _ _ Hnew), Hrun.
  exists s. split; [reflexivity|]. repeat split; try congruence; apply Hrest.
Qed.

(** X9 on the entry point with [root] on an operating system that opens no
    directory. *)
Lemma Java_startWatching_nothing_opens_witness :
  [root] <> []
  /\ os_attach_jni os_no_directory [E_NewGlobalRef; E_thread_start] = true
  /\ (forall t n, os_CreateFileW os_no_directory t n = INVALID_HANDLE_VALUE)
  /\ exists s : Server,
       Java_startWatching os_no_directory JNI_OK [root] ∅ =
       Ret (Some (fresh (dom (∅ : gmap ptr Server))), None)
           (<[fresh (dom (∅ : gmap ptr Server)) := s]> ∅)
       /\ watchPoints s = []
       /\ objects s = ∅
       /\ quiescent s
       /\ reported (trace s) = []
       /\ handle_calls (trace s) = [].
Proof.
  assert (Hne : [root] <> []) by discriminate.
  split; [exact Hne|]. split; [reflexivity|]. split; [reflexivity|].
  exact (Java_startWatching_nothing_opens os_no_directory [root] ∅ Hne eq_refl
           (fun _ _ => eq_refl)).
Defined.

(** *** What the routines of the server keep *)

Section Respects.

Variable R : Server -> Server -> Prop.
Hypothesis R_refl : forall s, R s s.
Hypothesis R_trans : forall s1 s2 s3, R s1 s2 -> R s2 s3 -> R s1 s3.

Lemma respects_ret {A} (a : A) : respects R (ret a).
Proof. intros s. apply R_refl. Qed.

Lemma respects_get : respects R get.
Proof. intros s. apply R_refl. Qed.

Lemma respects_block {A} : respects R (@block A).
Proof. intros s. apply R_refl. Qed.

Lemma respects_undefined {A} : respects R (@undefined A).
Proof. intros s. exact I. Qed.

Lemma respects_deref p : respects R (deref p).
Proof. intros s. unfold deref. destruct (objects s !! p); [apply R_refl|exact I]. Qed.

Lemma respects_bind {A B} (m : M A) (k : A -> M B) :
  respects R m -> (forall a, respects R (k a)) -> respects R (x <- m ;; k x).
Proof.
  intros Hm Hk s. unfold bind. specialize (Hm s).
  destruct (m s) as [a s1| |]; [|assumption|exact I].
  specialize (Hk a s1). destruct (k a s1); [| |exact I]; eapply R_trans; eassumption.
Qed.

Lemma respects_when b m : respects R m -> respects R (when b m).
Proof. intros H. destruct b; [exact H|apply respects_ret]. Qed.

Lemma respects_for_each {A} (l : list A) (body : A -> M unit) :
  (forall x, respects R (body x)) -> respects R (for_each l body).
Proof.
  intros H. induction l as [|x l IH]; cbn [for_each].
  - apply respects_ret.
  - apply respects_bind; [apply H|intros _; exact IH].
Qed.

End Respects.

Lemma kept_refl s : kept s s.
Proof.
  split; [intros q w Hq; exists w; auto|].
  split; [reflexivity|]. split; [auto|]. split; [auto|].
  exists []. now rewrite app_nil_r.
Qed.

Lemma kept_trans s1 s2 s3 : kept s1 s2 -> kept s2 s3 -> kept s1 s3.
Proof.
  intros (Hid & Hsub & Hlive & Ht & t & Htr) (Hid' & Hsub' & Hlive' & Ht' & t' & Htr').
  split.
  { intros q w3 H3. destruct (Hid' q w3 H3) as (w2 & H2 & Hp & Hh).
    destruct (Hid q w2 H2) as (w1 & H1 & Hp1 & Hh1).
    exists w1. repeat split; congruence. }
  split; [etransitivity; eassumption|].
  split.
  { intros q Hq H1. apply Hlive'; [exact Hq|]. apply Hlive; [|exact H1].
    eapply elem_of_sublist; eassumption. }
  split; [auto|].
  exists (t ++ t'). rewrite Htr', Htr. now rewrite app_assoc.
Qed.

(** A state that differs only in the thread, the queue, a set [terminate]
    or a longer trace. *)
Lemma kept_same_objects s s' :
  objects s' = objects s ->
  watchPoints s' = watchPoints s ->
  (terminate s = true -> terminate s' = true) ->
  (exists t, trace s' = trace s ++ t) ->
  kept s s'.
Proof.
  intros Ho Hw Ht Htr. unfold kept, same_identity. rewrite Ho, Hw.
  split; [intros q w Hq; exists w; auto|].
  split; [reflexivity|]. auto.
Qed.

Lemma kept_emit e : respects kept (emit e).
Proof.
  intros s. cbn. apply kept_same_objects; auto. now exists [e].
Qed.

Lemma kept_set_terminate_true : respects kept (set_terminate true).
Proof.
  intros s. cbn. apply kept_same_objects; auto. exists []. now rewrite app_nil_r.
Qed.

Lemma kept_set_watcherThread t : respects kept (set_watcherThread t).
Proof.
  intros s. cbn. apply kept_same_objects; auto. exists []. now rewrite app_nil_r.
Qed.

Lemma kept_set_apcQueue q : respects kept (set_apcQueue q).
Proof.
  intros s. cbn. apply kept_same_objects; auto. exists []. now rewrite app_nil_r.
Qed.

(** An update of a watch point that leaves its path and its handle. *)
Lemma kept_modify p (f : WatchPoint -> WatchPoint) :
  (forall w, path (f w) = path w /\ directoryHandle (f w) = directoryHandle w) ->
  respects kept (modify p f).
Proof.
  intros Hf s. unfold modify, store, deref, get, set_objects, bind.
  destruct (objects s !! p) as [w|] eqn:Hp; [|exact I]. cbn.
  split.
  { intros q w' Hq. cbn in Hq. destruct (decide (q = p)) as [->|Hne].
    - rewrite lookup_insert_eq in Hq. injection Hq as <-.
      exists w. split; [exact Hp|apply Hf].
    - rewrite lookup_insert_ne in Hq by congruence. exists w'. auto. }
  split; [reflexivity|].
  split.
  { intros q _ Hq. cbn. destruct (decide (q = p)) as [->|Hne].
    - rewrite lookup_insert_eq. eauto.
    - rewrite lookup_insert_ne by congruence. exact Hq. }
  split; [auto|]. exists []. cbn. now rewrite app_nil_r.
Qed.

Lemma kept_set_status p st : respects kept (modify p (set_status st)).
Proof. apply kept_modify. intros w. split; reflexivity. Qed.

Lemma kept_notify_all p : respects kept (modify p notify_all).
Proof. apply kept_modify. intros w. split; reflexivity. Qed.

(** [reportFinished] removes the pointer and the object together. *)
Lemma kept_reportFinished p : respects kept (Server_reportFinished p).
Proof.
  intros s. unfold Server_reportFinished, delete_WatchPoint, get, set_watchPoints,
    set_objects, emit, deref, bind; cbn.
  destruct (objects s !! p) as [w|] eqn:Hp; [|exact I]. cbn.
  split.
  { intros q w' Hq. cbn in Hq. apply lookup_delete_Some in Hq as [_ Hq].
    exists w'. auto. }
  split; [apply sublist_filter|].
  split.
  { intros q Hq Hlive. cbn in *. apply list_elem_of_filter in Hq as [Hne _].
    rewrite lookup_delete_ne by congruence. exact Hlive. }
  split; [auto|]. eexists. reflexivity.
Qed.

Create HintDb kept.
#[local] Hint Resolve kept_refl kept_trans : kept.
#[local] Hint Resolve respects_ret respects_get respects_block respects_undefined
  respects_deref kept_emit kept_set_terminate_true kept_set_watcherThread
  kept_set_apcQueue kept_set_status kept_notify_all kept_reportFinished : kept.

Ltac kept :=
  repeat first
    [ solve [auto with kept]
    | apply (respects_bind kept kept_trans); [|intros ?]
    | apply (respects_when kept kept_refl)
    | apply (respects_for_each kept kept_refl kept_trans); intros ?
    | match goal with
      | |- respects kept (if ?b then _ else _) => destruct b
      | |- respects kept (match ?x with _ => _ end) => destruct x
      end ].

Section Kept.

Variable os : OS.

Lemma kept_listen p : respects kept (WatchPoint_listen os p).
Proof. unfold WatchPoint_listen, ReadDirectoryChangesW, log. kept. Qed.

Lemma kept_close p : respects kept (WatchPoint_close os p).
Proof. unfold WatchPoint_close, CancelIo, CloseHandle, log. kept. Qed.

Lemma kept_handlePathChanged p info :
  respects kept (WatchPoint_handlePathChanged p info).
Proof. unfold WatchPoint_handlePathChanged, Server_reportEvent, log. kept. Qed.

Lemma kept_handle_records fuel p buffer current :
  respects kept (handle_records fuel p buffer current).
Proof.
  revert current. induction fuel as [|fuel IH]; intros current;
    cbn [handle_records]; [intros s; exact I|].
  destruct (buffer !! current) as [info|]; [|intros s; exact I].
  apply (respects_bind kept kept_trans); [apply kept_handlePathChanged|intros _].
  destruct (NextEntryOffset info =? 0); [apply respects_ret, kept_refl|apply IH].
Qed.

Lemma kept_handleEvent p errorCode bytesTransferred buffer :
  respects kept (WatchPoint_handleEvent os p errorCode bytesTransferred buffer).
Proof.
  pose proof kept_listen. pose proof kept_handle_records.
  unfold WatchPoint_handleEvent, Server_reportEvent, log. kept.
Qed.

Lemma kept_requestTermination : respects kept (Server_requestTermination os).
Proof. pose proof kept_close. unfold Server_requestTermination. kept. Qed.

Lemma kept_call routine : respects kept (call os routine).
Proof.
  destruct routine; cbn [call].
  - apply kept_listen.
  - apply kept_requestTermination.
  - apply kept_handleEvent.
Qed.

Lemma kept_run_loop : respects kept run_loop.
Proof. unfold run_loop, log. kept. Qed.

Lemma kept_SleepEx_return : respects kept (SleepEx_return os).
Proof.
  pose proof kept_call. pose proof kept_run_loop. unfold SleepEx_return. kept.
Qed.

Lemma kept_deliver routine : respects kept (deliver routine).
Proof. unfold deliver. kept. Qed.

Lemma kept_QueueUserAPC routine : respects kept (QueueUserAPC routine).
Proof. unfold QueueUserAPC. kept. Qed.

Lemma kept_join arrivals : respects kept (join os arrivals).
Proof.
  pose proof kept_SleepEx_return. pose proof kept_deliver.
  induction arrivals as [|a rest IH]; cbn [join]; kept.
Qed.

Lemma kept_Server_close arrivals : respects kept (Server_close os arrivals).
Proof.
  pose proof kept_QueueUserAPC. pose proof (kept_join arrivals).
  unfold Server_close, log. kept.
Qed.

Lemma kept_Server_new : respects kept (Server_new os).
Proof.
  pose proof kept_run_loop. unfold Server_new, Server_run, log. kept.
Qed.

Lemma kept_await p : respects kept (WatchPoint_awaitListeningStarted os p).
Proof.
  pose proof kept_QueueUserAPC. pose proof kept_SleepEx_return.
  unfold WatchPoint_awaitListeningStarted. kept.
Qed.

End Kept.

Lemma kept_well_formed s s' : kept s s' -> well_formed s -> well_formed s'.
Proof.
  intros (_ & Hsub & Hlive & _) [Hnd Hreg]. split.
  - eapply sublist_NoDup; eassumption.
  - intros q Hq. apply Hlive; [exact Hq|]. apply Hreg.
    eapply elem_of_sublist; eassumption.
Qed.

Lemma omap_sublist {A B} (f g : A -> option B) (l k : list A) :
  l `sublist_of` k ->
  (forall x, x ∈ l -> f x = g x) ->
  omap f l `sublist_of` omap g k.
Proof.
  intros Hsub. induction Hsub as [|x l k Hsub IH|x l k Hsub IH]; intros Heq.
  - constructor.
  - cbn [omap list_omap]. rewrite <- (Heq x) by left.
    destruct (f x); [apply sublist_skip|]; apply IH; intros y Hy; apply Heq; now right.
  - cbn [omap list_omap]. destruct (g x); [apply sublist_cons|]; now apply IH.
Qed.

Lemma kept_watched_paths s s' :
  kept s s' -> registered_live s -> watched_paths s' `sublist_of` watched_paths s.
Proof.
  intros (Hid & Hsub & Hlive & _) Hreg. unfold watched_paths.
  apply omap_sublist; [exact Hsub|].
  intros q Hq.
  destruct (Hlive q Hq) as [w' Hw'].
  { apply Hreg. eapply elem_of_sublist; eassumption. }
  destruct (Hid q w' Hw') as (w & Hw & Hp & _).
  now rewrite Hw', Hw; cbn; rewrite Hp.
Qed.

Lemma SleepEx_return_never_blocks (os : OS) (s : Server) :
  match SleepEx_return os s with
  | Blocked _ => False
  | _ => True
  end.
Proof.
  destruct (decide (watcherThread s = InSleepEx)) as [Hth|Hth].
  - destruct (SleepEx_return_cases os s Hth) as [[_ Heq]|[_ Heq]]; rewrite Heq;
      [exact I|].
    unfold bind.
    pose proof (steady_queue os (apcQueue s) (upd_apcQueue [] s)) as Hframe.
    destruct (for_each (apcQueue s) (call os) (upd_apcQueue [] s)) as [[] s1| |];
      [|contradiction|exact I].
    now rewrite run_loop_spec.
  - now rewrite SleepEx_return_dead.
Qed.

Lemma well_formed_s_listening : well_formed s_listening.
Proof.
  split.
  - replace (watchPoints s_listening) with [1%positive] by (vm_compute; reflexivity).
    apply NoDup_singleton.
  - intros q Hq.
    replace (watchPoints s_listening) with [1%positive] in Hq
      by (vm_compute; reflexivity).
    apply list_elem_of_singleton in Hq as ->. exists wp_root. vm_compute. reflexivity.
Defined.

(** X10. Whatever is queued on it, the run-loop thread does not block when its
    wait ends, and it keeps a well-formed server well-formed: it registers
    nothing, it changes neither the path nor the handle of a watch point,
    the pointers it leaves in [watchPoints] keep their order and their
    objects, and [terminate], once set, stays set. *)
Theorem SleepEx_return_keeps (os : OS) (s : Server) :
  well_formed s ->
  match SleepEx_return os s with
  | Ret _ s' =>
      well_formed s'
      /\ same_identity s s'
      /\ watchPoints s' `sublist_of` watchPoints s
      /\ watched_paths s' `sublist_of` watched_paths s
      /\ (terminate s = true -> terminate s' = true)
  | Blocked _ => False
  | Undefined => True
  end.
Proof.
  intros Hwf.
  pose proof (kept_SleepEx_return os s) as Hkept.
  pose proof (SleepEx_return_never_blocks os s) as Hnever.
  destruct (SleepEx_return os s) as [[] s'| |]; [|exact Hnever|exact I].
  split; [eapply kept_well_formed; eassumption|].
  split; [apply Hkept|]. split; [apply Hkept|].
  split; [apply kept_watched_paths; [exact Hkept|apply Hwf]|apply Hkept].
Qed.

(** X10 on the end of the wait of the thread that watches [root], with the
    completion of the cancelled read in its queue. *)
Lemma SleepEx_return_keeps_witness :
  well_formed (upd_apcQueue [abort_of_root] s_listening)
  /\ match SleepEx_return os_ok (upd_apcQueue [abort_of_root] s_listening) with
     | Ret _ s' =>
         well_formed s'
         /\ same_identity (upd_apcQueue [abort_of_root] s_listening) s'
         /\ watchPoints s' `sublist_of` watchPoints (upd_apcQueue [abort_of_root] s_listening)
         /\ watched_paths s' `sublist_of`
            watched_paths (upd_apcQueue [abort_of_root] s_listening)
         /\ (terminate (upd_apcQueue [abort_of_root] s_listening) = true ->
             terminate s' = true)
     | Blocked _ => False
     | Undefined => True
     end.
Proof.
  assert (Hwf : well_formed (upd_apcQueue [abort_of_root] s_listening))
    by exact well_formed_s_listening.
  split; [exact Hwf|].
  exact (SleepEx_return_keeps os_ok (upd_apcQueue [abort_of_root] s_listening) Hwf).
Defined.

(** X11. [Server::close], whether it returns or waits for ever, keeps a
    well-formed server well-formed, registers nothing and changes neither
    the path nor the handle of a watch point; the paths still watched are
    among those watched before, in their order, and [terminate] is not
    cleared. *)
Theorem Server_close_keeps (os : OS) (arrivals : list APC) (s : Server) :
  well_formed s ->
  match Server_close os arrivals s with
  | Ret _ s' | Blocked s' =>
      well_formed s'
      /\ same_identity s s'
      /\ watchPoints s' `sublist_of` watchPoints s
      /\ watched_paths s' `sublist_of` watched_paths s
      /\ (terminate s = true -> terminate s' = true)
  | Undefined => True
  end.
Proof.
  intros Hwf.
  pose proof (kept_Server_close os arrivals s) as Hkept.
  destruct (Server_close os arrivals s) as [[] s'|s'|]; [| |exact I];
    (split; [eapply kept_well_formed; eassumption|];
     split; [apply Hkept|]; split; [apply Hkept|];
     split; [apply kept_watched_paths; [exact Hkept|apply Hwf]|apply Hkept]).
Qed.

(** X11: [close] on the server that watches [root], when no completion
    arrives. *)
Lemma Server_close_keeps_witness :
  well_formed s_listening
  /\ match Server_close os_ok [] s_listening with
     | Ret _ s' | Blocked s' =>
         well_formed s'
         /\ same_identity s_listening s'
         /\ watchPoints s' `sublist_of` watchPoints s_listening
         /\ watched_paths s' `sublist_of` watched_paths s_listening
         /\ (terminate s_listening = true -> terminate s' = true)
     | Undefined => True
     end.
Proof.
  split; [exact well_formed_s_listening|].
  exact (Server_close_keeps os_ok [] s_listening well_formed_s_listening).
Defined.

Lemma keeps_well_formed_refl s : keeps_well_formed s s.
Proof. intros H. exact H. Qed.

Lemma keeps_well_formed_trans s1 s2 s3 :
  keeps_well_formed s1 s2 -> keeps_well_formed s2 s3 -> keeps_well_formed s1 s3.
Proof. unfold keeps_well_formed. auto. Qed.

Lemma kept_keeps_well_formed {A} (m : M A) :
  respects kept m -> respects keeps_well_formed m.
Proof.
  intros H s. specialize (H s).
  destruct (m s); try exact I; intros Hwf; eapply kept_well_formed; eassumption.
Qed.

Lemma kept_run_loop_thread (os : OS) (bursts : list (list APC)) :
  respects kept (run_loop_thread os bursts).
Proof.
  pose proof (kept_SleepEx_return os). pose proof kept_deliver.
  unfold run_loop_thread. kept.
Qed.

Lemma kept_await_during (os : OS) (i : Interference) (p : ptr) :
  respects kept (WatchPoint_awaitListeningStarted_during os i p).
Proof.
  pose proof kept_QueueUserAPC. pose proof (kept_SleepEx_return os).
  pose proof (kept_run_loop_thread os (before_status i)).
  unfold WatchPoint_awaitListeningStarted_during. kept.
Qed.

Lemma outcome_bind {A B} (m : M A) (k : A -> M B) (P : B -> Server -> Prop)
    (s : Server) :
  (forall a s1, match k a s1 with Ret b s' => P b s' | _ => True end) ->
  match (x <- m ;; k x) s with Ret b s' => P b s' | _ => True end.
Proof.
  intros Hk. unfold bind. destruct (m s) as [a s1| |]; [apply Hk|exact I|exact I].
Qed.

(** The status that [awaitListeningStarted] returns has been read from a
    live watch point, whatever interferes. *)
Lemma await_during_live (os : OS) (i : Interference) (p : ptr) (s : Server) :
  match WatchPoint_awaitListeningStarted_during os i p s with
  | Ret st s' => exists w', objects s' !! p = Some w' /\ status w' = st
  | _ => True
  end.
Proof.
  unfold WatchPoint_awaitListeningStarted_during.
  set (P := fun (st : WatchStatus) (s' : Server) =>
              exists w', objects s' !! p = Some w' /\ status w' = st).
  apply (outcome_bind _ _ P). intros _ s1.
  apply (outcome_bind _ _ P). intros _ s2.
  apply (outcome_bind _ _ P). intros _ s3.
  unfold deref, bind. destruct (objects s3 !! p) as [w|] eqn:Hw; [|exact I].
  exists w. split; [exact Hw|reflexivity].
Qed.

(** A registration on any server, whatever is queued on its thread and
    whatever interferes before the caller has read the status. *)
Lemma startWatching_during_respects_well_formed (os : OS) (i : Interference)
    (name : wstring) :
  before_update i = [] ->
  respects keeps_well_formed (Server_startWatching_during os i name).
Proof.
  intros Hupd. unfold Server_startWatching_during.
  apply (respects_bind keeps_well_formed keeps_well_formed_trans);
    [apply kept_keeps_well_formed, kept_run_loop_thread|].
  intros _ s. unfold keeps_well_formed.
  set (h := os_CreateFileW os (trace s) name).
  assert (Hcreate : CreateFileW os name s = Ret h (add_trace [E_CreateFileW name h] s))
    by reflexivity.
  rewrite (run_bind _ _ _ _ _ Hcreate).
  destruct (h =? INVALID_HANDLE_VALUE); [intros Hwf; exact Hwf|].
  set (sa := add_trace [E_CreateFileW name h] s).
  rewrite (run_bind _ _ _ _ _ (new_WatchPoint_spec name h sa)).
  set (p := fresh (dom (objects sa))).
  set (w0 := {| path := name; directoryHandle := h;
                status := WATCH_UNINITIALIZED; listenerStarted := false |}).
  set (sb := add_trace [E_new_WatchPoint p] _).
  assert (Hwfb : well_formed s -> well_formed sb /\ p ∉ watchPoints sb).
  { intros [Hnd Hreg]. split; [split; [exact Hnd|]|].
    - intros q Hq. cbn in *. destruct (decide (q = p)) as [->|Hne].
      + rewrite lookup_insert_eq. eauto.
      + rewrite lookup_insert_ne by congruence. now apply Hreg.
    - exact (fresh_not_registered s Hreg). }
  pose proof (await_during_live os i p sb) as Hawait.
  pose proof (kept_await_during os i p sb) as Hkept.
  unfold bind at 1.
  destruct (WatchPoint_awaitListeningStarted_during os i p sb) as [st s2|s2|];
    [| |exact I].
  - destruct Hawait as (w' & Hl2 & Hst).
    assert (Hwf2 : well_formed s -> well_formed s2 /\ p ∉ watchPoints s2).
    { intros Hwf. destruct (Hwfb Hwf) as [Hb Hp]. split.
      - eapply kept_well_formed; eassumption.
      - intros Hin. apply Hp. eapply elem_of_sublist; [exact Hin|apply Hkept]. }
    rewrite Hupd. unfold run_loop_thread. cbn [for_each]. rewrite bind_ret_l.
    assert (Hpush : match (s0 <- get ;; set_watchPoints (watchPoints s0 ++ [p])) s2 with
                    | Ret _ s' | Blocked s' => well_formed s -> well_formed s'
                    | Undefined => True
                    end).
    { unfold get, set_watchPoints, bind. intros Hwf.
      destruct (Hwf2 Hwf) as [[Hnd Hreg] Hp].
      split; cbn [watchPoints objects upd_watchPoints].
      - apply NoDup_app. split; [exact Hnd|]. split; [|apply NoDup_singleton].
        intros q Hin Hq. apply list_elem_of_singleton in Hq as ->. exact (Hp Hin).
      - intros q Hin. cbn [watchPoints objects upd_watchPoints] in *.
        apply elem_of_app in Hin as [Hin|Hin]; [now apply Hreg|].
        apply list_elem_of_singleton in Hin as ->. eauto. }
    assert (Hdelete : match (log SEVERE "Couldn't start listening to '%ls': %d" ;;
                             delete_WatchPoint p) s2 with
                      | Ret _ s' | Blocked s' => well_formed s -> well_formed s'
                      | Undefined => True
                      end).
    { unfold log, emit, bind at 1. unfold delete_WatchPoint.
      erewrite run_bind by (apply deref_live; cbn; exact Hl2).
      unfold emit, get, set_objects, bind. intros Hwf.
      destruct (Hwf2 Hwf) as [[Hnd Hreg] Hp].
      split; cbn [watchPoints objects upd_objects add_trace]; [exact Hnd|].
      intros q Hin. cbn [watchPoints objects upd_objects add_trace] in *.
      rewrite lookup_delete_ne; [now apply Hreg|].
      intros <-. exact (Hp Hin). }
    destruct st; first [exact Hpush|exact Hdelete].
  - intros Hwf. destruct (Hwfb Hwf) as [Hb _].
    eapply kept_well_formed; eassumption.
Qed.

(** X12. A registration keeps a well-formed server well-formed, whatever
    the state of the thread and whatever is queued on it, whether the
    wait ends by the notification or spuriously, whatever completions
    the run-loop thread handles before the call and before the caller
    reads the status, and whether the call returns or waits for ever,
    provided that the run-loop thread handles nothing between the
    caller's read of the status and its update of [watchPoints]: the new
    pointer is registered at most once and only while its object is
    live, and no other pointer is left registered without its object.
    (A completion handled in that last window can leave a dangling
    pointer registered:
    [completion_before_update_registers_dangling_pointer].) *)
Theorem startWatching_keeps_well_formed (os : OS) (i : Interference)
    (name : wstring) (s : Server) :
  before_update i = [] ->
  well_formed s ->
  match Server_startWatching_during os i name s with
  | Ret _ s' | Blocked s' => well_formed s'
  | Undefined => True
  end.
Proof.
  intros Hupd Hwf.
  pose proof (startWatching_during_respects_well_formed os i name Hupd s) as H.
  destruct (Server_startWatching_during os i name s); try exact I; exact (H Hwf).
Qed.

(** X12 on a second registration of [root], in which the completion of
    the first read arrives before the call and the wait ends
    spuriously. *)
Lemma startWatching_keeps_well_formed_witness :
  before_update
    {| before_call := [[handleEventCallback 0 46 1%positive two_records]];
       spurious_wakeup := true; before_status := [[]]; before_update := [] |} = []
  /\ well_formed s_listening
  /\ match Server_startWatching_during os_ok
             {| before_call := [[handleEventCallback 0 46 1%positive two_records]];
                spurious_wakeup := true; before_status := [[]]; before_update := [] |}
             root s_listening with
     | Ret _ s' | Blocked s' => well_formed s'
     | Undefined => True
     end.
Proof.
  split; [reflexivity|]. split; [exact well_formed_s_listening|].
  exact (startWatching_keeps_well_formed os_ok
           {| before_call := [[handleEventCallback 0 46 1%positive two_records]];
              spurious_wakeup := true; before_status := [[]]; before_update := [] |}
           root s_listening eq_refl well_formed_s_listening).
Defined.

(** X13. Once the thread of the server has attached, and when nothing
    interferes with the registrations (no wait ends spuriously and the
    run-loop thread handles no completion before the entry point
    returns), the entry point [startWatching] returns, whatever the
    operating system answers to the registrations: it hands out a watcher
    at an address that no server occupied and marks no failure.  The
    server is at rest and well formed, the paths it watches are among
    those of the array, in their order, nothing was reported and no
    handle was closed. *)
Theorem Java_startWatching_returns_when_attached (os : OS) (paths : list wstring)
    (schedule : list Interference) (process : gmap ptr Server) :
  paths <> [] ->
  Forall no_interference schedule ->
  os_attach_jni os [E_NewGlobalRef; E_thread_start] = true ->
  exists s : Server,
    Java_startWatching_during os JNI_OK paths schedule process =
    Ret (Some (fresh (dom process)), None) (<[fresh (dom process) := s]> process)
    /\ process !! fresh (dom process) = None
    /\ watched_paths s `sublist_of` paths
    /\ (length (watchPoints s) <= length paths)%nat
    /\ well_formed s
    /\ quiescent s
    /\ reported (trace s) = []
    /\ handle_calls (trace s) = [].
Proof.
  intros Hne Hquiet Hattach.
  rewrite (Java_startWatching_undisturbed os JNI_OK paths schedule process Hquiet).
  rewrite Java_startWatching_run by exact Hne.
  destruct (Server_new_attached os Hattach)
    as (s0 & Hnew & Hrest0 & Hw0 & Ho0 & Hrep0 & Hcalls0).
  assert (Hreg0 : registered_live s0).
  { intros q Hq. rewrite Hw0 in Hq. inversion Hq. }
  destruct (register_all os paths s0 Hrest0 Hreg0)
    as (s & l & Hrun & Hrest & Hreg & Hw & Hsub & _ & _ & Hrep & Hcalls & Hnd & Hlen).
  rewrite (run_bind _ _ _ _ _ Hnew), Hrun.
  exists s. split; [reflexivity|].
  split; [apply not_elem_of_dom, is_fresh|].
  assert (Hl : watched_paths s = l) by (rewrite Hw; unfold watched_paths; now rewrite Hw0).
  split; [now rewrite Hl|].
  split; [rewrite Hlen, Hw0; cbn; now apply sublist_length|].
  split; [split; [apply Hnd; rewrite Hw0; constructor|exact Hreg]|].
  split; [exact Hrest|]. split; congruence.
Qed.

Lemma no_interference_once : Forall no_interference [undisturbed].
Proof. repeat constructor. Defined.

(** X13 on the entry point with [root], undisturbed, on an operating
    system that refuses every read. *)
Lemma Java_startWatching_returns_when_attached_witness :
  [root] <> []
  /\ Forall no_interference [undisturbed]
  /\ os_attach_jni os_no_read [E_NewGlobalRef; E_thread_start] = true
  /\ exists s : Server,
       Java_startWatching_during os_no_read JNI_OK [root] [undisturbed] ∅ =
       Ret (Some (fresh (dom (∅ : gmap ptr Server))), None)
           (<[fresh (dom (∅ : gmap ptr Server)) := s]> ∅)
       /\ (∅ : gmap ptr Server) !! fresh (dom (∅ : gmap ptr Server)) = None
       /\ watched_paths s `sublist_of` [root]
       /\ (length (watchPoints s) <= 1)%nat
       /\ well_formed s
       /\ quiescent s
       /\ reported (trace s) = []
       /\ handle_calls (trace s) = [].
Proof.
  assert (Hne : [root] <> []) by discriminate.
  split; [exact Hne|]. split; [exact no_interference_once|]. split; [reflexivity|].
  exact (Java_startWatching_returns_when_attached os_no_read [root] [undisturbed] ∅
           Hne no_interference_once eq_refl).
Defined.

(** *** Closing a server *)

Lemma close_all_quiet (os : OS) (ps : list ptr) (ws : list WatchPoint) (s : Server) :
  live_at s ps ws ->
  exists s',
    for_each ps (WatchPoint_close os) s = Ret tt s'
    /\ terminate s' = terminate s
    /\ watchPoints s' = watchPoints s
    /\ objects s' = objects s
    /\ watcherThread s' = watcherThread s
    /\ apcQueue s' = apcQueue s
    /\ handle_calls (trace s') =
       handle_calls (trace s) ++ flat_map closing_calls ws
    /\ reported (trace s') = reported (trace s)
    /\ reads (trace s') = reads (trace s).
Proof.
  unfold live_at. revert ws s.
  induction ps as [|p ps IH]; intros ws s H; inversion H as [|? w ? ws' Hp Hrest]; subst.
  - exists s. cbn. now rewrite app_nil_r.
  - cbn [for_each flat_map].
    pose proof (close_live os p w s Hp) as Hclose. cbn zeta in Hclose.
    erewrite run_bind by exact Hclose.
    match type of Hclose with _ = Ret tt ?x => set (s1 := x) in * end.
    destruct (IH ws' s1) as (s' & Hrun & Ht & Hw & Ho & Hth & Hq & Hcalls & Hrep & Hreads);
      [exact Hrest|].
    exists s'. split; [exact Hrun|].
    do 5 (split; [assumption|]).
    rewrite Hcalls, Hrep, Hreads. subst s1. cbn [trace add_trace].
    rewrite !handle_calls_app, !reported_app, !reads_app, <- !app_assoc.
    destruct (os_CancelIo _ _ _), (os_CloseHandle _ _ _); cbn;
      rewrite ?app_nil_r; repeat split; reflexivity.
Qed.

(** The wait of the thread ends with the completion of a cancelled read
    in its queue. *)
Lemma SleepEx_return_abort (os : OS) (p : ptr) (w : WatchPoint) (s : Server) :
  watcherThread s = InSleepEx ->
  apcQueue s = [abort_of p] ->
  objects s !! p = Some w ->
  SleepEx_return os s =
  Ret tt
    (let s1 :=
       {| terminate := terminate s;
          watchPoints := filter (fun q => q <> p) (watchPoints s);
          objects := delete p (objects s);
          watcherThread := InSleepEx;
          apcQueue := [];
          trace := trace s ++ [E_log INFO "Finished watching '%ls'";
                               E_delete_WatchPoint p (set_status WATCH_FINISHED w)] |} in
     if run_condition s1 then s1
     else upd_watcherThread Exited
            (add_trace [E_log INFO "Server thread %d finishing"; E_detach_jni] s1)).
Proof.
  intros Hth Hq Hlive.
  destruct (SleepEx_return_cases os s Hth) as [[Hq' _]|[_ Heq]]; [congruence|].
  rewrite Heq, Hq. cbn [for_each call abort_of]. unfold bind at 1 2.
  erewrite handleEvent_aborted by (cbn; exact Hlive).
  unfold ret. rewrite run_loop_spec.
  cbn [terminate watchPoints objects watcherThread apcQueue trace upd_apcQueue].
  rewrite Hth. cbn zeta.
  match goal with
  | |- context [run_condition ?x] => destruct (run_condition x)
  end; reflexivity.
Qed.

(** The [join] of [close] while the completions of the cancelled reads
    arrive, one watch point after the other. *)
Lemma join_drains (os : OS) (ps : list ptr) :
  forall (p : ptr) (s : Server),
    watcherThread s = InSleepEx ->
    terminate s = true ->
    apcQueue s = [abort_of p] ->
    watchPoints s = p :: ps ->
    NoDup (p :: ps) ->
    (forall q, q ∈ p :: ps -> is_Some (objects s !! q)) ->
    exists s',
      join os (map abort_of ps) s = Ret tt s'
      /\ watcherThread s' = Exited
      /\ terminate s' = true
      /\ watchPoints s' = []
      /\ apcQueue s' = []
      /\ (forall q, q ∈ p :: ps -> objects s' !! q = None)
      /\ (forall q, q ∉ p :: ps -> objects s' !! q = objects s !! q)
      /\ reported (trace s') = reported (trace s)
      /\ handle_calls (trace s') = handle_calls (trace s)
      /\ reads (trace s') = reads (trace s).
Proof.
  induction ps as [|p' ps IH]; intros p s Hth Hterm Hq Hw Hnd Hlive;
    (destruct (Hlive p) as [w Hp]; [left|]);
    pose proof (SleepEx_return_abort os p w s Hth Hq Hp) as Hrun; cbn zeta in Hrun;
    rewrite Hw, filter_out_head in Hrun by (apply NoDup_cons in Hnd; apply Hnd).
  - match type of Hrun with
    | context [run_condition ?x] =>
        assert (Hc : run_condition x = false)
          by (apply run_condition_false; split; [exact Hterm|reflexivity]);
        rewrite Hc in Hrun
    end.
    cbn [map join]. rewrite (run_bind _ _ _ _ _ Hrun).
    unfold get, bind at 1. cbn [watcherThread upd_watcherThread]. unfold ret.
    eexists. split; [reflexivity|].
    cbn [watcherThread terminate watchPoints apcQueue objects trace
         upd_watcherThread add_trace].
    split; [reflexivity|]. split; [exact Hterm|]. split; [reflexivity|].
    split; [reflexivity|].
    split.
    { intros q Hin. apply list_elem_of_singleton in Hin as ->. apply lookup_delete_eq. }
    split.
    { intros q Hin. apply lookup_delete_ne. intros <-. apply Hin. left. }
    rewrite !reported_app, !handle_calls_app, !reads_app. cbn.
    rewrite !app_nil_r. repeat split.
  - match type of Hrun with
    | context [run_condition ?x] =>
        assert (Hc : run_condition x = true);
        [destruct (run_condition x) eqn:Hc; [reflexivity|];
         apply run_condition_false in Hc; destruct Hc as [_ Hc]; discriminate|];
        rewrite Hc in Hrun
    end.
    cbn [map join]. rewrite (run_bind _ _ _ _ _ Hrun).
    unfold get, bind at 1. cbn [watcherThread].
    unfold deliver, get, set_apcQueue, bind at 1 2. cbn [watcherThread apcQueue app].
    match goal with
    | |- context [join os _ ?x] => set (s2 := x)
    end.
    apply NoDup_cons in Hnd as [Hp' Hnd].
    destruct (IH p' s2) as (s' & Hjoin & Hth' & Hterm' & Hw' & Hq' & Hgone & Hsame
                            & Hrep & Hcalls & Hreads);
      [reflexivity|exact Hterm|reflexivity|reflexivity|exact Hnd| |].
    { intros q Hin. cbn [objects s2 upd_apcQueue].
      rewrite lookup_delete_ne; [apply Hlive; now right|].
      intros <-. exact (Hp' Hin). }
    exists s'. split; [exact Hjoin|].
    do 4 (split; [assumption|]).
    split.
    { intros q Hin. apply elem_of_cons in Hin as [->|Hin]; [|now apply Hgone].
      rewrite Hsame by exact Hp'. cbn. apply lookup_delete_eq. }
    split.
    { intros q Hin. rewrite Hsame by (intros Hin'; apply Hin; now right).
      cbn. apply lookup_delete_ne. intros <-. apply Hin. left. }
    rewrite Hrep, Hcalls, Hreads. cbn [trace s2 upd_apcQueue].
    rewrite !reported_app, !handle_calls_app, !reads_app. cbn.
    rewrite !app_nil_r. repeat split.
Qed.

Lemma live_at_is_Some (s : Server) (ps : list ptr) (ws : list WatchPoint) :
  live_at s ps ws -> forall q, q ∈ ps -> is_Some (objects s !! q).
Proof.
  unfold live_at. induction 1 as [|p w ps ws Hp _ IH]; intros q Hq.
  - inversion Hq.
  - apply elem_of_cons in Hq as [->|Hq]; [eauto|now apply IH].
Qed.

Lemma registered_live_live_at (s : Server) :
  registered_live s -> exists ws, live_at s (watchPoints s) ws.
Proof.
  unfold registered_live, live_at. generalize (watchPoints s) as ps.
  induction ps as [|p ps IH]; intros Hreg.
  - exists []. constructor.
  - destruct (Hreg p) as [w Hw]; [left|].
    destruct IH as [ws Hws]; [intros q Hq; apply Hreg; now right|].
    exists (w :: ws). now constructor.
Qed.

(** The termination request runs on a thread that waits with an empty
    queue. *)
Lemma SleepEx_return_termination (os : OS) (ws : list WatchPoint) (s : Server) :
  watcherThread s = InSleepEx ->
  apcQueue s = [requestTerminationCallback] ->
  live_at s (watchPoints s) ws ->
  exists s2,
    SleepEx_return os s =
    Ret tt (if run_condition s2 then upd_watcherThread InSleepEx s2
            else upd_watcherThread Exited
                   (add_trace [E_log INFO "Server thread %d finishing"; E_detach_jni] s2))
    /\ terminate s2 = true
    /\ watchPoints s2 = watchPoints s
    /\ objects s2 = objects s
    /\ apcQueue s2 = []
    /\ handle_calls (trace s2) = handle_calls (trace s) ++ flat_map closing_calls ws
    /\ reported (trace s2) = reported (trace s)
    /\ reads (trace s2) = reads (trace s).
Proof.
  intros Hth Hq Hlive.
  destruct (SleepEx_return_cases os s Hth) as [[Hq' _]|[_ Heq]]; [congruence|].
  rewrite Heq, Hq. cbn [for_each call].
  destruct (close_all_quiet os (watchPoints s) ws (upd_terminate true (upd_apcQueue [] s)))
    as (s2 & Hrun & Ht & Hw & Ho & _ & Hq2 & Hcalls & Hrep & Hreads); [exact Hlive|].
  assert (Hreq : Server_requestTermination os (upd_apcQueue [] s) = Ret tt s2)
    by exact Hrun.
  unfold bind at 1 2. rewrite Hreq. unfold ret. rewrite run_loop_spec.
  exists s2. split; [reflexivity|]. repeat split; assumption.
Qed.

(** [Server::close] on a server whose thread waits with an empty queue,
    when the completion of every cancelled read arrives. *)
Lemma Server_close_drains (os : OS) (ws : list WatchPoint) (s : Server) :
  watcherThread s = InSleepEx ->
  apcQueue s = [] ->
  NoDup (watchPoints s) ->
  live_at s (watchPoints s) ws ->
  exists s',
    Server_close os (map abort_of (watchPoints s)) s = Ret tt s'
    /\ watcherThread s' = Exited
    /\ terminate s' = true
    /\ watchPoints s' = []
    /\ apcQueue s' = []
    /\ (forall q, q ∈ watchPoints s -> objects s' !! q = None)
    /\ (forall q, q ∉ watchPoints s -> objects s' !! q = objects s !! q)
    /\ reported (trace s') = reported (trace s)
    /\ handle_calls (trace s') = handle_calls (trace s) ++ flat_map closing_calls ws
    /\ reads (trace s') = reads (trace s)
    /\ last (trace s') = Some E_DeleteGlobalRef.
Proof.
  intros Hth Hq Hnd Hlive.
  set (s0 := add_trace [E_log FINE "Requesting termination of server thread %p"] s).
  assert (Hth0 : watcherThread s0 = InSleepEx) by exact Hth.
  pose proof (QueueUserAPC_alive requestTerminationCallback s0 Hth0) as Hqueue.
  match type of Hqueue with _ = Ret true ?x => set (s1 := x) in * end.
  assert (Hclose : forall arrivals,
             Server_close os arrivals s = (join os arrivals ;; emit E_DeleteGlobalRef) s1).
  { intros arrivals. unfold Server_close. unfold log at 1, emit at 1, bind at 1. fold s0.
    erewrite run_bind by exact Hqueue. reflexivity. }
  rewrite Hclose.
  destruct (SleepEx_return_termination os ws s1)
    as (s2 & Hsleep & Hterm2 & Hw2 & Ho2 & Hq2 & Hcalls2 & Hrep2 & Hreads2);
    [exact Hth|cbn; now rewrite Hq|exact Hlive|].
  assert (Htr1 : handle_calls (trace s1) = handle_calls (trace s)
                 /\ reported (trace s1) = reported (trace s)
                 /\ reads (trace s1) = reads (trace s)).
  { cbn [trace s1 s0 add_trace upd_apcQueue].
    rewrite !handle_calls_app, !reported_app, !reads_app. cbn.
    rewrite !app_nil_r. repeat split. }
  destruct Htr1 as (Hcalls1 & Hrep1 & Hreads1).
  rewrite Hcalls1 in Hcalls2. rewrite Hrep1 in Hrep2. rewrite Hreads1 in Hreads2.
  change (watchPoints s1) with (watchPoints s) in Hw2.
  change (objects s1) with (objects s) in Ho2.
  destruct (watchPoints s) as [|p ps] eqn:Hw.
  - assert (Hc : run_condition s2 = false)
      by (apply run_condition_false; split; assumption).
    rewrite Hc in Hsleep.
    cbn [map join]. unfold bind at 1. rewrite (run_bind _ _ _ _ _ Hsleep).
    unfold get, bind at 1. cbn [watcherThread upd_watcherThread]. unfold ret, emit.
    eexists. split; [reflexivity|].
    cbn [watcherThread terminate watchPoints apcQueue objects trace
         upd_watcherThread add_trace].
    split; [reflexivity|]. split; [exact Hterm2|]. split; [exact Hw2|].
    split; [exact Hq2|].
    split; [intros q Hin; inversion Hin|].
    split; [intros q _; now rewrite Ho2|].
    rewrite !reported_app, !handle_calls_app, !reads_app, Hrep2, Hcalls2, Hreads2.
    cbn. rewrite !app_nil_r.
    split; [reflexivity|]. split; [reflexivity|]. split; [reflexivity|].
    now rewrite last_app.
  - assert (Hc : run_condition s2 = true).
    { destruct (run_condition s2) eqn:Hc; [reflexivity|].
      apply run_condition_false in Hc. destruct Hc as [_ Hc]. congruence. }
    rewrite Hc in Hsleep.
    cbn [map join]. unfold bind at 1. rewrite (run_bind _ _ _ _ _ Hsleep).
    unfold get, bind at 1. cbn [watcherThread upd_watcherThread].
    unfold deliver, get, set_apcQueue, bind at 1 2.
    cbn [watcherThread upd_watcherThread].
    match goal with
    | |- context [join os _ ?x] => set (s4 := x)
    end.
    destruct (join_drains os ps p s4)
      as (s5 & Hjoin & Hth5 & Hterm5 & Hw5 & Hq5 & Hgone & Hsame & Hrep5 & Hcalls5
          & Hreads5).
    { reflexivity. }
    { exact Hterm2. }
    { cbn. now rewrite Hq2. }
    { exact Hw2. }
    { exact Hnd. }
    { intros q Hin. cbn [objects s4 upd_apcQueue upd_watcherThread]. rewrite Ho2.
      eapply live_at_is_Some; [exact Hlive|exact Hin]. }
    rewrite Hjoin. unfold emit.
    eexists. split; [reflexivity|].
    cbn [watcherThread terminate watchPoints apcQueue objects trace add_trace].
    split; [exact Hth5|]. split; [exact Hterm5|]. split; [exact Hw5|].
    split; [exact Hq5|]. split; [exact Hgone|].
    split.
    { intros q Hin. rewrite (Hsame q Hin). cbn. now rewrite Ho2. }
    rewrite !reported_app, !handle_calls_app, !reads_app, Hrep5, Hcalls5, Hreads5.
    cbn [trace s4 upd_apcQueue upd_watcherThread].
    rewrite Hrep2, Hcalls2, Hreads2. cbn. rewrite !app_nil_r.
    split; [reflexivity|]. split; [reflexivity|]. split; [reflexivity|].
    now rewrite last_app.
Qed.

(** X14. [close] on a well-formed server whose thread waits with nothing
    queued, when the completion of every cancelled read arrives: the call
    returns.  On the way every registered handle is cancelled and closed,
    once and in the order of [watchPoints]; every registered watch point
    is destroyed; the thread has left its loop; nothing is reported and
    no read is issued; the last thing done is [DeleteGlobalRef]. *)
Theorem close_drains (os : OS) (s : Server) :
  watcherThread s = InSleepEx ->
  apcQueue s = [] ->
  well_formed s ->
  exists (s' : Server) (ws : list WatchPoint),
    live_at s (watchPoints s) ws
    /\ Server_close os (map abort_of (watchPoints s)) s = Ret tt s'
    /\ watcherThread s' = Exited
    /\ watchPoints s' = []
    /\ (forall q, q ∈ watchPoints s -> objects s' !! q = None)
    /\ handle_calls (trace s') = handle_calls (trace s) ++ flat_map closing_calls ws
    /\ reported (trace s') = reported (trace s)
    /\ reads (trace s') = reads (trace s)
    /\ last (trace s') = Some E_DeleteGlobalRef.
Proof.
  intros Hth Hq [Hnd Hreg].
  destruct (registered_live_live_at s Hreg) as [ws Hlive].
  destruct (Server_close_drains os ws s Hth Hq Hnd Hlive)
    as (s' & Hrun & Hth' & _ & Hw' & _ & Hgone & _ & Hrep & Hcalls & Hreads & Hlast).
  exists s', ws. repeat split; assumption.
Qed.

(** X14: [close] on the server that watches [root]. *)
Lemma close_drains_witness :
  watcherThread s_listening = InSleepEx
  /\ apcQueue s_listening = []
  /\ well_formed s_listening
  /\ exists (s' : Server) (ws : list WatchPoint),
       live_at s_listening (watchPoints s_listening) ws
       /\ Server_close os_ok (map abort_of (watchPoints s_listening)) s_listening
          = Ret tt s'
       /\ watcherThread s' = Exited
       /\ watchPoints s' = []
       /\ (forall q, q ∈ watchPoints s_listening -> objects s' !! q = None)
       /\ handle_calls (trace s') =
          handle_calls (trace s_listening) ++ flat_map closing_calls ws
       /\ reported (trace s') = reported (trace s_listening)
       /\ reads (trace s') = reads (trace s_listening)
       /\ last (trace s') = Some E_DeleteGlobalRef.
Proof.
  assert (Hth : watcherThread s_listening = InSleepEx) by (vm_compute; reflexivity).
  assert (Hq : apcQueue s_listening = []) by (vm_compute; reflexivity).
  split; [exact Hth|]. split; [exact Hq|]. split; [exact well_formed_s_listening|].
  exact (close_drains os_ok s_listening Hth Hq well_formed_s_listening).
Defined.





(** *** The loop over the records ends *)

Lemma records_from_closed (buffer : Buffer) :
  unsigned_offsets buffer ->
  (forall offset info,
     buffer !! offset = Some info -> NextEntryOffset info <> 0 ->
     is_Some (buffer !! (offset + NextEntryOffset info))) ->
  forall (fuel : nat) (current : Z),
    is_Some (buffer !! current) ->
    (size (from_offset buffer current) <= fuel)%nat ->
    exists infos, records_from fuel buffer current = Some infos /\ infos <> [].
Proof.
  intros Hpos Hclosed.
  induction fuel as [|fuel IH]; intros current [info Hcur] Hsize.
  - assert (Hin : from_offset buffer current !! current = Some info).
    { apply map_lookup_filter_Some. split; [exact Hcur|cbn; lia]. }
    assert (Hempty : from_offset buffer current = ∅) by (apply map_size_empty_iff; lia).
    rewrite Hempty, lookup_empty in Hin. discriminate.
  - cbn [records_from]. rewrite Hcur.
    destruct (Z.eqb_spec (NextEntryOffset info) 0) as [|Hnext];
      [eexists; split; [reflexivity|discriminate]|].
    pose proof (Hpos _ _ Hcur) as Hge.
    destruct (IH (current + NextEntryOffset info)) as (infos & Hrec & _).
    + now apply (Hclosed current info).
    + assert (Hsub : from_offset buffer (current + NextEntryOffset info)
                     ⊂ from_offset buffer current).
      { apply map_subset_alt. split.
        - apply map_filter_subseteq_ext. intros i x _. cbn. lia.
        - exists current. split.
          + unfold from_offset. apply map_lookup_filter_None. right.
            intros x _. cbn. lia.
          + exists info. apply map_lookup_filter_Some. split; [exact Hcur|cbn; lia]. }
      apply map_subset_size in Hsub. lia.
    + rewrite Hrec. eexists. split; [reflexivity|discriminate].
Qed.

(** X17. The loop of [handleEvent] over the records comes to an end: on a
    buffer whose offsets go forward and whose chain stays inside the
    buffer, a completion that is not the end of the watch returns, and
    when it brought data the sink has received one event for each record
    of the chain, at least one. *)
Theorem handleEvent_returns_on_closed_chain (os : OS) (this : ptr) (w : WatchPoint)
    (errorCode bytesTransferred : DWORD) (buffer : Buffer) (s : Server) :
  objects s !! this = Some w ->
  errorCode <> ERROR_OPERATION_ABORTED ->
  unsigned_offsets buffer ->
  chain_closed buffer ->
  exists (s' : Server) (infos : list FILE_NOTIFY_INFORMATION),
    WatchPoint_handleEvent os this errorCode bytesTransferred buffer s = Ret tt s'
    /\ records buffer = Some infos
    /\ infos <> []
    /\ (bytesTransferred <> 0 ->
        reported (trace s') =
        reported (trace s) ++
        map (fun info => (spec_ChangeType (Action info), changedPath_of (path w) info))
            infos).
Proof.
  intros H Hne Hpos [Hstart Hclosed].
  destruct (records_from_closed buffer Hpos Hclosed (S (size buffer)) 0 Hstart)
    as (infos & Hrec & Hsome).
  { pose proof (map_subseteq_size (from_offset buffer 0) buffer
                  (map_filter_subseteq _ _)). lia. }
  pose proof (handleEvent_completed os this w errorCode bytesTransferred buffer infos s
                H Hne (fun _ => Hrec)) as Hrun.
  cbn zeta in Hrun.
  eexists _, infos. split; [exact Hrun|]. split; [exact Hrec|]. split; [exact Hsome|].
  intros Hbytes. destruct (Z.eqb_spec bytesTransferred 0) as [|_]; [contradiction|].
  destruct (os_ReadDirectoryChangesW _ _ _); cbn [trace];
    rewrite !reported_app, reported_flat_map_record_effects; cbn;
    now rewrite app_nil_r.
Qed.

Lemma two_records_lookup (offset : Z) (info : FILE_NOTIFY_INFORMATION) :
  two_records !! offset = Some info ->
  (offset = 0 /\ info = record_of 24 FILE_ACTION_ADDED (L "a.txt"))
  \/ (offset = 24 /\ info = record_of 0 FILE_ACTION_MODIFIED (L "a.txt")).
Proof.
  unfold two_records. intros Hl.
  apply lookup_insert_Some in Hl as [[<- <-]|[_ Hl]]; [left; split; reflexivity|].
  apply lookup_insert_Some in Hl as [[<- <-]|[_ Hl]]; [right; split; reflexivity|].
  rewrite lookup_empty in Hl. discriminate.
Defined.

Lemma two_records_unsigned : unsigned_offsets two_records.
Proof.
  intros offset info Hl.
  destruct (two_records_lookup offset info Hl) as [[_ ->]|[_ ->]]; cbn; lia.
Defined.

Lemma two_records_closed : chain_closed two_records.
Proof.
  split; [eexists; vm_compute; reflexivity|].
  intros offset info Hl Hnext.
  destruct (two_records_lookup offset info Hl) as [[-> ->]|[-> ->]].
  - eexists. vm_compute. reflexivity.
  - now destruct Hnext.
Defined.

(** X17 on the completion with the two records of [two_records]. *)
Lemma handleEvent_returns_on_closed_chain_witness :
  objects s_listening !! 1%positive = Some wp_root
  /\ 0 <> ERROR_OPERATION_ABORTED
  /\ unsigned_offsets two_records
  /\ chain_closed two_records
  /\ exists (s' : Server) (infos : list FILE_NOTIFY_INFORMATION),
       WatchPoint_handleEvent os_ok 1%positive 0 46 two_records s_listening = Ret tt s'
       /\ records two_records = Some infos
       /\ infos <> [].
Proof.
  assert (H : objects s_listening !! 1%positive = Some wp_root)
    by (vm_compute; reflexivity).
  assert (Hne : 0 <> ERROR_OPERATION_ABORTED) by (unfold ERROR_OPERATION_ABORTED; lia).
  split; [exact H|]. split; [exact Hne|].
  split; [exact two_records_unsigned|]. split; [exact two_records_closed|].
  destruct (handleEvent_returns_on_closed_chain os_ok 1%positive wp_root 0 46
              two_records s_listening H Hne two_records_unsigned two_records_closed)
    as (s' & infos & Hrun & Hrec & Hsome & _).
  exists s', infos. repeat split; assumption.
Defined.

(** *** The handshake ends *)

(** X18. In every interleaving of the caller of [awaitListeningStarted] and
    the run-loop thread, as long as the caller has not returned one of
    the two threads can go on, and from wherever the two threads have
    come to, the handshake can be completed: the caller returns the
    status that [listen] published, the run-loop thread is through with
    the APC and the mutex is free.  The notification cannot come before
    the caller waits, as the caller holds the mutex from before
    [QueueUserAPC] until it waits. *)
Theorem handshake_always_completes (success : bool) (h : Handshake) :
  handshake_reaches (handshake_start success) h ->
  ((exists ret, hs_caller h = C_returned ret /\ hs_loop h = L_finished)
   \/ (exists h', handshake_step h h'))
  /\ exists hf : Handshake,
       handshake_reaches h hf
       /\ hs_caller hf = C_returned (status_of success)
       /\ hs_loop hf = L_finished
       /\ hs_mutex hf = None
       /\ hs_status hf = status_of success
       /\ forall h', ~ handshake_step hf h'.
Proof.
  intros Hreach. split; [exact (handshake_no_deadlock success h Hreach)|].
  revert Hreach.
  remember (statements_left h) as n eqn:Hn. revert h Hn.
  induction n as [n IH] using lt_wf_ind. intros h Hn Hreach.
  destruct (handshake_no_deadlock success h Hreach) as [(ret & Hc & Hl)|[h' Hstep]].
  - exists h. split; [apply reaches_refl|].
    pose proof (handshake_inv_reaches success h Hreach) as Hinv.
    destruct h as [c l m q b st]. cbn in Hc, Hl. subst c l.
    unfold handshake_inv in Hinv. cbn in Hinv.
    apply andb_prop in Hinv as [_ Hinv].
    destruct m as [[]|]; try discriminate. destruct q; try discriminate.
    apply andb_prop in Hinv as [H1 H2]. apply eqb_status_eq in H1, H2. cbn.
    subst. repeat split.
    intros h' [Hstep|Hstep]; unfold caller_step, loop_step in Hstep; cbn in Hstep;
      discriminate.
  - pose proof (handshake_step_decreases h h' Hstep) as Hlt.
    destruct (IH (statements_left h')) with (h := h') as (hf & Hreach' & Hfinal);
      [lia|reflexivity|eapply reaches_step; eassumption|].
    exists hf. split; [eapply reaches_first; eassumption|exact Hfinal].
Qed.

(** X18 on the handshake from its start, when the read is refused. *)
Lemma handshake_always_completes_witness :
  handshake_reaches (handshake_start false) (handshake_start false)
  /\ exists hf : Handshake,
       handshake_reaches (handshake_start false) hf
       /\ hs_caller hf = C_returned WATCH_FAILED_TO_LISTEN
       /\ hs_loop hf = L_finished
       /\ hs_mutex hf = None
       /\ hs_status hf = WATCH_FAILED_TO_LISTEN.
Proof.
  assert (H : handshake_reaches (handshake_start false) (handshake_start false))
    by apply reaches_refl.
  split; [exact H|].
  destruct (handshake_always_completes false (handshake_start false) H)
    as (_ & hf & Hreach & Hc & Hl & Hm & Hst & _).
  exists hf. repeat split; assumption.
Defined.

(** *** What a completion can report *)

Lemma handleEvent_lost (os : OS) (this : ptr) (w : WatchPoint)
    (errorCode bytesTransferred : DWORD) (buffer : Buffer) (s : Server) :
  objects s !! this = Some w ->
  errorCode <> ERROR_OPERATION_ABORTED ->
  bytesTransferred <> 0 ->
  records buffer = None ->
  WatchPoint_handleEvent os this errorCode bytesTransferred buffer s = Undefined.
Proof.
  intros H Hne Hbytes Hrec. unfold WatchPoint_handleEvent.
  erewrite run_bind by (apply modify_live; exact H).
  destruct (Z.eqb_spec errorCode ERROR_OPERATION_ABORTED) as [|_]; [contradiction|].
  destruct (Z.eqb_spec bytesTransferred 0) as [|_]; [contradiction|].
  apply run_bind_Undefined.
  apply (handle_records_lost _ _ (set_status WATCH_NOT_LISTENING w));
    [cbn; apply lookup_insert_eq|exact Hrec].
Qed.

Lemma changedPath_of_under_root (root : wstring) (info : FILE_NOTIFY_INFORMATION) :
  changedPath_of root info = []
  \/ (root ++ [backslash]) `prefix_of` changedPath_of root info.
Proof.
  unfold changedPath_of. destruct (substr _ _ _) as [|c name]; [now left|right].
  exists (c :: name). now rewrite <- app_assoc.
Qed.

(** X19. Whatever a completion brings, the paths that reach the sink lie
    under the watched root: each is the root itself, a path that starts
    with the root and a backslash, or the empty path of a record without
    a name.  The handler never blocks. *)
Theorem handleEvent_paths_under_root (os : OS) (this : ptr) (w : WatchPoint)
    (errorCode bytesTransferred : DWORD) (buffer : Buffer) (s : Server) :
  objects s !! this = Some w ->
  match WatchPoint_handleEvent os this errorCode bytesTransferred buffer s with
  | Ret _ s' =>
      exists new : list (FileEvent * wstring),
        reported (trace s') = reported (trace s) ++ new
        /\ Forall (fun event => event.2 = []
                                \/ event.2 = path w
                                \/ (path w ++ [backslash]) `prefix_of` event.2) new
  | Blocked _ => False
  | Undefined => True
  end.
Proof.
  intros H. destruct (Z.eq_dec errorCode ERROR_OPERATION_ABORTED) as [->|Hne].
  { rewrite (handleEvent_aborted os this w bytesTransferred buffer s H).
    exists []. cbn [trace]. rewrite reported_app. cbn. split; [reflexivity|constructor]. }
  destruct (Z.eq_dec bytesTransferred 0) as [Hbytes|Hbytes];
    [|destruct (records buffer) as [infos|] eqn:Hrec].
  - subst bytesTransferred.
    pose proof (handleEvent_completed os this w errorCode 0 buffer [] s
                  H Hne (fun Hn => False_ind _ (Hn eq_refl))) as Hrun.
    cbn zeta in Hrun. cbn [Z.eqb] in Hrun. rewrite Hrun.
    exists [(FILE_EVENT_INVALIDATE, path w)].
    split; [|constructor; [right; left; reflexivity|constructor]].
    destruct (os_ReadDirectoryChangesW _ _ _); cbn [trace];
      rewrite !reported_app; reflexivity.
  - pose proof (handleEvent_completed os this w errorCode bytesTransferred buffer infos s
                  H Hne (fun _ => Hrec)) as Hrun.
    cbn zeta in Hrun. rewrite Hrun.
    exists (map (fun info => (spec_ChangeType (Action info),
                              changedPath_of (path w) info)) infos).
    split.
    + destruct (Z.eqb_spec bytesTransferred 0) as [|_]; [contradiction|].
      destruct (os_ReadDirectoryChangesW _ _ _); cbn [trace];
        rewrite !reported_app, reported_flat_map_record_effects; cbn;
        now rewrite app_nil_r.
    + apply Forall_fmap, Forall_forall. intros info _. cbn.
      destruct (changedPath_of_under_root (path w) info); auto.
  - now rewrite (handleEvent_lost os this w errorCode bytesTransferred buffer s H Hne Hbytes Hrec).
Qed.

(** X19 on the completion with the two records of [two_records]. *)
Lemma handleEvent_paths_under_root_witness :
  objects s_listening !! 1%positive = Some wp_root
  /\ match WatchPoint_handleEvent os_ok 1%positive 0 46 two_records s_listening with
     | Ret _ s' =>
         exists new : list (FileEvent * wstring),
           reported (trace s') = reported (trace s_listening) ++ new
           /\ Forall (fun event => event.2 = []
                                   \/ event.2 = path wp_root
                                   \/ (path wp_root ++ [backslash]) `prefix_of` event.2)
                     new
     | Blocked _ => False
     | Undefined => True
     end.
Proof.
  assert (H : objects s_listening !! 1%positive = Some wp_root)
    by (vm_compute; reflexivity).
  split; [exact H|].
  exact (handleEvent_paths_under_root os_ok 1%positive wp_root 0 46 two_records
           s_listening H).
Defined.

(** X20. [close] on a server that still watches something, when no completion
    arrives: the termination request runs, every registered handle is
    cancelled and closed, and then the caller waits in [join] for ever,
    with every watch point still registered. *)
Theorem close_without_completions_blocks (os : OS) (ws : list WatchPoint)
    (s : Server) :
  watcherThread s = InSleepEx ->
  apcQueue s = [] ->
  watchPoints s <> [] ->
  live_at s (watchPoints s) ws ->
  exists s' : Server,
    Server_close os [] s = Blocked s'
    /\ terminate s' = true
    /\ watcherThread s' = InSleepEx
    /\ apcQueue s' = []
    /\ watchPoints s' = watchPoints s
    /\ objects s' = objects s
    /\ handle_calls (trace s') = handle_calls (trace s) ++ flat_map closing_calls ws
    /\ reported (trace s') = reported (trace s).
Proof.
  intros Hth Hq Hne Hlive.
  set (s0 := add_trace [E_log FINE "Requesting termination of server thread %p"] s).
  assert (Hth0 : watcherThread s0 = InSleepEx) by exact Hth.
  pose proof (QueueUserAPC_alive requestTerminationCallback s0 Hth0) as Hqueue.
  match type of Hqueue with _ = Ret true ?x => set (s1 := x) in * end.
  assert (Hclose : Server_close os [] s = (join os [] ;; emit E_DeleteGlobalRef) s1).
  { unfold Server_close. unfold log at 1, emit at 1, bind at 1. fold s0.
    erewrite run_bind by exact Hqueue. reflexivity. }
  rewrite Hclose.
  destruct (SleepEx_return_termination os ws s1)
    as (s2 & Hsleep & Hterm2 & Hw2 & Ho2 & Hq2 & Hcalls2 & Hrep2 & _);
    [exact Hth|cbn; now rewrite Hq|exact Hlive|].
  change (watchPoints s1) with (watchPoints s) in Hw2.
  change (objects s1) with (objects s) in Ho2.
  assert (Hc : run_condition s2 = true).
  { destruct (run_condition s2) eqn:Hc; [reflexivity|].
    apply run_condition_false in Hc. destruct Hc as [_ Hc]. congruence. }
  rewrite Hc in Hsleep.
  cbn [join]. unfold bind at 1. rewrite (run_bind _ _ _ _ _ Hsleep).
  unfold get, bind at 1. cbn [watcherThread upd_watcherThread]. unfold block.
  eexists. split; [reflexivity|].
  cbn [watcherThread terminate watchPoints apcQueue objects trace upd_watcherThread].
  split; [exact Hterm2|]. split; [reflexivity|]. split; [exact Hq2|].
  split; [exact Hw2|]. split; [exact Ho2|].
  rewrite Hcalls2, Hrep2. cbn [trace s1 s0 add_trace upd_apcQueue].
  rewrite !handle_calls_app, !reported_app. cbn. rewrite !app_nil_r.
  split; reflexivity.
Qed.

(** X20: [close] on the server that watches [root], when the completion of
    the cancelled read does not arrive. *)
Lemma close_without_completions_blocks_witness :
  watcherThread s_listening = InSleepEx
  /\ apcQueue s_listening = []
  /\ watchPoints s_listening <> []
  /\ live_at s_listening (watchPoints s_listening) [wp_root]
  /\ exists s' : Server,
       Server_close os_ok [] s_listening = Blocked s'
       /\ terminate s' = true
       /\ watcherThread s' = InSleepEx
       /\ apcQueue s' = []
       /\ watchPoints s' = watchPoints s_listening
       /\ objects s' = objects s_listening
       /\ handle_calls (trace s') =
          handle_calls (trace s_listening) ++ flat_map closing_calls [wp_root]
       /\ reported (trace s') = reported (trace s_listening).
Proof.
  assert (Hth : watcherThread s_listening = InSleepEx) by (vm_compute; reflexivity).
  assert (Hq : apcQueue s_listening = []) by (vm_compute; reflexivity).
  assert (Hne : watchPoints s_listening <> []) by (vm_compute; discriminate).
  assert (Hlive : live_at s_listening (watchPoints s_listening) [wp_root]).
  { vm_compute. repeat constructor. }
  split; [exact Hth|]. split; [exact Hq|]. split; [exact Hne|]. split; [exact Hlive|].
  exact (close_without_completions_blocks os_ok [wp_root] s_listening Hth Hq Hne Hlive).
Defined.
